(** * ecr_delete_push_images.py: a shallow embedding and its properties

    The script lists the ECR repositories whose name starts with a prefix,
    ranks the three most recently pushed tags of each one and runs a
    pull / delete / push cycle on every such tag.

    Pure code (prefix filter, sort, tag walk, image reference) is embedded as
    Rocq functions.  Code that talks to the outside (boto3 paginators,
    [batch_delete_image], [subprocess.run], [logging]) is embedded in a small
    state / exception / transcript monad over an abstract registry-and-host
    state: every external call is answered by an oracle of the environment
    and recorded, with its answer, in the transcript of the run. *)

From Stdlib Require Import String Ascii List ZArith Lia Bool Arith.
From Stdlib Require Import Permutation Sorted.
Import ListNotations.

Open Scope string_scope.
Open Scope list_scope.

(** ** Python values the script handles *)

(** The exception classes that occur: the two roots of the SDK's exceptions,
    [subprocess.CalledProcessError] (a command that exited non-zero under
    [check=True]), [TypeError] (an unsupported [<] between an [int] and a
    [datetime]) and [OSError] (a command that could not be started). *)
Inductive exn : Type :=
| BotoCoreError
| ClientError
| CalledProcessError
| TypeError
| OSError.

(** Either an exception that was raised or the value that was returned. *)
Definition result (A : Type) : Type := (exn + A)%type.

Definition exn_eqb (a b : exn) : bool :=
  match a, b with
  | BotoCoreError, BotoCoreError
  | ClientError, ClientError
  | CalledProcessError, CalledProcessError
  | TypeError, TypeError
  | OSError, OSError => true
  | _, _ => false
  end.

(** One entry of [imageDetails].  Both members are optional in the response
    shape, which is why the script reads them with [dict.get].  The SDK
    deserialises [imagePushedAt] to a [datetime]; it is represented by its
    instant, in microseconds since the epoch. *)
Record image : Type := Image {
  imagePushedAt : option Z;
  imageTags : option (list string)
}.

(** One entry of [repositories]. *)
Record repository : Type := Repository {
  repositoryName : option string
}.

(** A response page: [None] when the page lacks the list member. *)
Definition page (A : Type) : Type := option (list A).

(** [page.get(member, [])] *)
Definition page_get {A : Type} (p : page A) : list A :=
  match p with
  | Some l => l
  | None => []
  end.

(** The values a sort key takes: the [int] default and a [datetime]. *)
Inductive pyval : Type :=
| PyInt (n : Z)
| PyDatetime (t : Z).

(** Python's [a < b]: integers compare, datetimes compare, and a mixed pair
    raises [TypeError]. *)
Definition py_lt (a b : pyval) : result bool :=
  match a, b with
  | PyInt x, PyInt y => inr (x <? y)%Z
  | PyDatetime x, PyDatetime y => inr (x <? y)%Z
  | _, _ => inl TypeError
  end.

(** ** Tag ranking: the pure part of [get_last_three_tags] *)

(** [lambda x: x.get("imagePushedAt", 0)] *)
Definition pushed_key (x : image) : pyval :=
  match imagePushedAt x with
  | Some t => PyDatetime t
  | None => PyInt 0
  end.

(** [img.get("imageTags", [])] *)
Definition tags_of (img : image) : list string :=
  match imageTags img with
  | Some ts => ts
  | None => []
  end.

(** [images.sort(key=..., reverse=True)]: a stable sort into descending key
    order that only ever evaluates [<] on keys.  A stable sort has one
    possible output, and any comparison sort of two or more elements compares
    every element with some other one along a connected chain, so the list
    insertion below returns what [list.sort] returns and raises exactly when
    [list.sort] raises. *)
Fixpoint insert_desc (x : image) (l : list image) : result (list image) :=
  match l with
  | [] => inr [x]
  | y :: r =>
      match py_lt (pushed_key x) (pushed_key y) with
      | inl e => inl e
      | inr true =>
          match insert_desc x r with
          | inl e => inl e
          | inr r' => inr (y :: r')
          end
      | inr false => inr (x :: y :: r)
      end
  end.

Fixpoint sort_images (l : list image) : result (list image) :=
  match l with
  | [] => inr []
  | x :: r =>
      match sort_images r with
      | inl e => inl e
      | inr s => insert_desc x s
      end
  end.

(** [t in tags] *)
Definition tag_in (t : string) (tags : list string) : bool :=
  existsb (String.eqb t) tags.

(** [if t not in tags: tags.append(t)] *)
Definition add_tag (tags : list string) (t : string) : list string :=
  if tag_in t tags then tags else tags ++ [t].

(** The inner loop over the tags of one image, leaving at [break]. *)
Fixpoint walk_tags (ts : list string) (tags : list string) : list string :=
  match ts with
  | [] => tags
  | t :: ts' =>
      let tags' := add_tag tags t in
      if (length tags' =? 3)%nat then tags' else walk_tags ts' tags'
  end.

(** The outer loop over the sorted images, with its own [break]. *)
Fixpoint walk_images (imgs : list image) (tags : list string) : list string :=
  match imgs with
  | [] => tags
  | img :: rest =>
      let tags' := walk_tags (tags_of img) tags in
      if (length tags' =? 3)%nat then tags' else walk_images rest tags'
  end.

(** Lines 72 to 86: from the collected [images] to the returned tags. *)
Definition rank_images (images : list image) : result (list string) :=
  match images with
  | [] => inr []
  | _ :: _ =>
      match sort_images images with
      | inl e => inl e
      | inr sorted => inr (walk_images sorted [])
      end
  end.

(** The same two loops with a ghost counter of the tag names examined, that
    is, of the iterations of the inner loop that were run. *)
Fixpoint walk_tags_count (ts : list string) (tags : list string) (n : nat)
  : list string * nat :=
  match ts with
  | [] => (tags, n)
  | t :: ts' =>
      let tags' := add_tag tags t in
      if (length tags' =? 3)%nat then (tags', S n)
      else walk_tags_count ts' tags' (S n)
  end.

Fixpoint walk_images_count (imgs : list image) (tags : list string) (n : nat)
  : list string * nat :=
  match imgs with
  | [] => (tags, n)
  | img :: rest =>
      let '(tags', n') := walk_tags_count (tags_of img) tags n in
      if (length tags' =? 3)%nat then (tags', n')
      else walk_images_count rest tags' n'
  end.

(** ** What the specification says about ranking *)

(** The tag names in the order the walk meets them. *)
Definition tag_stream (imgs : list image) : list string :=
  flat_map tags_of imgs.

(** The distinct names of a sequence, each at its first occurrence. *)
Definition distinct_onto (seen : list string) (l : list string) : list string :=
  fold_left add_tag l seen.

Definition distinct (l : list string) : list string := distinct_onto [] l.

(** The instant used to order an image: its push time, 0 without one. *)
Definition pushed_instant (x : image) : Z :=
  match imagePushedAt x with
  | Some t => t
  | None => 0%Z
  end.

(** Newest first. *)
Definition newer_or_equal (a b : image) : Prop :=
  (pushed_instant b <= pushed_instant a)%Z.

(** All images carry a push time, or none does: the keys are of one type. *)
Definition has_push_time (x : image) : bool :=
  match imagePushedAt x with
  | Some _ => true
  | None => false
  end.

Definition same_kind (a b : image) : bool :=
  Bool.eqb (has_push_time a) (has_push_time b).

Fixpoint comparable (imgs : list image) : bool :=
  match imgs with
  | [] => true
  | x :: r => forallb (same_kind x) r && comparable r
  end.

(** The images pushed at instant [k]. *)
Definition pushed_at (k : Z) (x : image) : bool := (pushed_instant x =? k)%Z.

(** Where a walk over the sequence [ts] stops: after [m] names, having
    collected the distinct ones among them, at the end of the sequence or at
    the first point where three names are held. *)
Definition stops_at (tags : list string) (ts : list string) (r : list string) (m : nat)
  : Prop :=
  m <= length ts /\
  r = distinct_onto tags (firstn m ts) /\
  (m < length ts -> length r = 3) /\
  (forall j, j < m -> length (distinct_onto tags (firstn j ts)) < 3).

(** ** Repository discovery: the pure part of [get_repositories_with_prefix] *)

(** [repo.get("repositoryName", "")] *)
Definition name_of (repo : repository) : string :=
  match repositoryName repo with
  | Some n => n
  | None => ""
  end.

(** [name.startswith(prefix)] *)
Definition startswith (name prefix : string) : bool := String.prefix prefix name.

(** The two nested loops over the pages and their repositories. *)
Fixpoint matching_names (prefix : string) (repos : list repository) (acc : list string)
  : list string :=
  match repos with
  | [] => acc
  | repo :: rest =>
      let name := name_of repo in
      matching_names prefix rest (if startswith name prefix then acc ++ [name] else acc)
  end.

Fixpoint matching_in_pages (prefix : string) (pages : list (page repository))
  (acc : list string) : list string :=
  match pages with
  | [] => acc
  | p :: rest => matching_in_pages prefix rest (matching_names prefix (page_get p) acc)
  end.

(** [images.extend(page.get("imageDetails", []))] over the pages. *)
Fixpoint images_of_pages (pages : list (page image)) (acc : list image) : list image :=
  match pages with
  | [] => acc
  | p :: rest => images_of_pages rest (acc ++ page_get p)
  end.

(** ** Names built from the command line *)

(** [f"{account_id}.dkr.ecr.{region}.amazonaws.com"] *)
Definition registry_host (account_id region : string) : string :=
  (account_id ++ ".dkr.ecr." ++ region ++ ".amazonaws.com")%string.

(** [f"{account_id}.dkr.ecr.{region}.amazonaws.com/{repo_name}:{tag}"] *)
Definition image_uri (account_id region repo_name tag : string) : string :=
  (account_id ++ ".dkr.ecr." ++ region ++ ".amazonaws.com/" ++ repo_name ++ ":" ++ tag)%string.

(** Truth value of an optional string: [None] and [""] are false. *)
Definition truthy (s : option string) : bool :=
  match s with
  | Some v => negb (v =? "")%string
  | None => false
  end.

Definition str_or_empty (s : option string) : string :=
  match s with
  | Some v => v
  | None => ""
  end.

(** ** Logging set-up and the registry client *)

Inductive level : Type := DEBUG | INFO | WARNING | ERROR | CRITICAL.

Inductive handler : Type :=
| StreamHandler
| FileHandler (path : string).

Record logging_config : Type := LoggingConfig {
  cfg_level : level;
  cfg_handlers : list handler
}.

(** The level and the handlers that [logging.basicConfig] is given.  Only
    the runs in which the handlers can be built are covered: opening a log
    file that cannot be written raises in the script, before any event. *)
Definition setup_logging (verbose : bool) (log_file : option string) : logging_config :=
  let lvl := if verbose then DEBUG else INFO in
  let handlers := [StreamHandler] in
  let handlers :=
    if truthy log_file then handlers ++ [FileHandler (str_or_empty log_file)]
    else handlers in
  LoggingConfig lvl handlers.

(** The handle of the registry API: made from a named profile or from the
    default credentials.  Only the runs in which the handle can be made are
    covered: an unknown profile raises in the script, before any event. *)
Inductive client : Type :=
| ProfileClient (profile region : string)
| DefaultClient (region : string).

Definition get_ecr_client (region : string) (profile : option string) : client :=
  if truthy profile then ProfileClient (str_or_empty profile) region
  else DefaultClient region.

(** ** The transcript of a run *)

(** What a paginator delivers: the pages it yields and the exception, if any,
    that ends the iteration. *)
Definition listing (A : Type) : Type := (list (page A) * option exn)%type.

(** The calls to [logging], one constructor for each call in the script. *)
Inductive logmsg : Type :=
| MsgDiscovered (n : nat) (prefix : string)
| MsgRepositories (repos : list string)
| MsgListTagsFailed (repo : string) (e : exn)
| MsgRunning (cmd : string)
| MsgLoggingIn (registry : string)
| MsgDryRunWould (uri : string)
| MsgPulling (uri : string)
| MsgPulled (uri : string)
| MsgPullFailed (uri : string) (e : exn)
| MsgDeleting (uri : string)
| MsgDeleted (uri : string)
| MsgDeleteFailed (uri : string) (e : exn)
| MsgPushing (uri : string)
| MsgPushed (uri : string)
| MsgPushFailed (uri : string) (e : exn)
| MsgLoginFailed (e : exn)
| MsgNoRecentTags (repo : string)
| MsgProcessingRepo (repo : string) (tags : list string)
| MsgActionFailed (repo tag reason : string)
| MsgSummary
| MsgReposTouched (n : nat)
| MsgTagsAttempted (total ok failed : nat)
| MsgModeDryRun.

(** Everything a run does that is visible outside, each external call with
    the answer it got. *)
Inductive event : Type :=
| EvLog (lvl : level) (m : logmsg)
| EvRun (argv : list string) (input : option string) (res : result string)
| EvDescribeRepositories (c : client) (res : listing repository)
| EvDescribeImages (c : client) (repo tag_status : string) (res : listing image)
| EvBatchDeleteImage (c : client) (repo tag : string) (res : result unit).

(** The oracles of the environment over its state [World]:
    [subprocess.run(argv, input=..., check=True)] answering the captured
    standard output or the exception raised; the two paginators; and
    [batch_delete_image] for one tag. *)
Record Env (World : Type) : Type := MkEnv {
  run_command : list string -> option string -> World -> result string * World;
  paginate_describe_repositories : client -> World -> listing repository * World;
  paginate_describe_images : client -> string -> string -> World -> listing image * World;
  batch_delete_image : client -> string -> string -> World -> result unit * World
}.

Arguments run_command {World} _ _ _ _.
Arguments paginate_describe_repositories {World} _ _ _.
Arguments paginate_describe_images {World} _ _ _ _ _.
Arguments batch_delete_image {World} _ _ _ _ _.

(** The command line after [parse_args]. *)
Record Args : Type := MkArgs {
  prefix : string;
  account_id : string;
  region : string;
  profile : option string;
  dry_run : bool;
  log_file : option string;
  verbose : bool
}.

(** The four counters of [main]. *)
Record counters : Type := Counters {
  total_repos : nat;
  total_tags : nat;
  successes : nat;
  failures : nat
}.

(** ** The monad: state of the environment, exceptions, transcript *)

Definition M (World A : Type) : Type := World -> result A * World * list event.

Definition ret {World A : Type} (a : A) : M World A :=
  fun w => (inr a, w, []).

Definition bind {World A B : Type} (m : M World A) (f : A -> M World B) : M World B :=
  fun w =>
    match m w with
    | (inl e, w1, t1) => (inl e, w1, t1)
    | (inr a, w1, t1) =>
        match f a w1 with
        | (r, w2, t2) => (r, w2, t1 ++ t2)
        end
    end.

(** [try: m  except <classes> as e: h e]: an exception of another class
    passes through. *)
Definition try_except {World A : Type} (m : M World A) (classes : exn -> bool)
  (h : exn -> M World A) : M World A :=
  fun w =>
    match m w with
    | (inl e, w1, t1) =>
        if classes e then
          match h e w1 with
          | (r, w2, t2) => (r, w2, t1 ++ t2)
          end
        else (inl e, w1, t1)
    | (inr a, w1, t1) => (inr a, w1, t1)
    end.

Definition log {World : Type} (lvl : level) (m : logmsg) : M World unit :=
  fun w => (inr tt, w, [EvLog lvl m]).

Declare Scope script_scope.
Delimit Scope script_scope with script.
Notation "x <- m ;; k" := (bind m (fun x => k))
  (at level 61, m at next level, right associativity) : script_scope.
Notation "m ;; k" := (bind m (fun _ => k))
  (at level 61, right associativity) : script_scope.
Open Scope script_scope.

(** [except (BotoCoreError, ClientError)] and [except subprocess.CalledProcessError] *)
Definition is_boto_error (e : exn) : bool :=
  match e with
  | BotoCoreError | ClientError => true
  | _ => false
  end.

Definition is_called_process_error (e : exn) : bool :=
  match e with
  | CalledProcessError => true
  | _ => false
  end.

(** ** The script *)

Section Script.

Context {World : Type} (env : Env World).

(** [subprocess.run(argv, ..., check=True)] *)
Definition subprocess_run (argv : list string) (input : option string)
  : M World string :=
  fun w =>
    let '(res, w') := run_command env argv input w in
    (res, w', [EvRun argv input res]).

(** [for page in ecr.get_paginator("describe_repositories").paginate()]:
    the pages that were yielded, or the exception that ended the iteration.
    The loop bodies of the script only extend a local list, which is dropped
    when the iteration raises, so nothing is lost by looking at the pages
    after the iteration. *)
Definition describe_repositories (ecr : client) : M World (list (page repository)) :=
  fun w =>
    let '(res, w') := paginate_describe_repositories env ecr w in
    (match snd res with Some e => inl e | None => inr (fst res) end,
     w', [EvDescribeRepositories ecr res]).

(** [paginator.paginate(repositoryName=repo_name, filter={"tagStatus": ...})] *)
Definition describe_images (ecr : client) (repo_name tag_status : string)
  : M World (list (page image)) :=
  fun w =>
    let '(res, w') := paginate_describe_images env ecr repo_name tag_status w in
    (match snd res with Some e => inl e | None => inr (fst res) end,
     w', [EvDescribeImages ecr repo_name tag_status res]).

(** [ecr.batch_delete_image(repositoryName=repo_name, imageIds=[{"imageTag": tag}])] *)
Definition delete_image_tag (ecr : client) (repo_name tag : string) : M World unit :=
  fun w =>
    let '(res, w') := batch_delete_image env ecr repo_name tag w in
    (res, w', [EvBatchDeleteImage ecr repo_name tag res]).

(** The value of an expression that may raise [TypeError]. *)
Definition lift_result {A : Type} (r : result A) : M World A :=
  fun w => (r, w, []).

Definition get_repositories_with_prefix (ecr : client) (prefix : string)
  : M World (list string) :=
  pages <- describe_repositories ecr ;;
  let repos := matching_in_pages prefix pages [] in
  log INFO (MsgDiscovered (length repos) prefix) ;;
  log DEBUG (MsgRepositories repos) ;;
  ret repos.

Definition get_last_three_tags (ecr : client) (repo_name : string)
  : M World (list string) :=
  try_except
    (pages <- describe_images ecr repo_name "TAGGED" ;;
     let images := images_of_pages pages [] in
     lift_result (rank_images images))
    is_boto_error
    (fun e =>
       log ERROR (MsgListTagsFailed repo_name e) ;;
       ret []).

Definition docker_login (account_id region : string) (profile : option string)
  : M World unit :=
  let login_cmd := ["aws"; "ecr"; "get-login-password"; "--region"; region] in
  let login_cmd :=
    if truthy profile then login_cmd ++ ["--profile"; str_or_empty profile]
    else login_cmd in
  log DEBUG (MsgRunning (String.concat " " login_cmd)) ;;
  auth <- subprocess_run login_cmd None ;;
  let registry := registry_host account_id region in
  log INFO (MsgLoggingIn registry) ;;
  subprocess_run
    ["docker"; "login"; "--username"; "AWS"; "--password-stdin"; registry]
    (Some auth) ;;
  ret tt.

(** Pull, delete, push.  Each [try] statement has the value [None] when its
    block ran to the end and [Some r] when its handler returned [r] from the
    function. *)
Definition process_tag (ecr : client) (repo_name tag account_id region : string)
  (dry_run : bool) : M World (bool * string) :=
  let uri := image_uri account_id region repo_name tag in
  if dry_run then
    log INFO (MsgDryRunWould uri) ;;
    ret (true, "dry-run")
  else
    pulled <- try_except
      (log INFO (MsgPulling uri) ;;
       subprocess_run ["docker"; "pull"; uri] None ;;
       log INFO (MsgPulled uri) ;;
       ret None)
      is_called_process_error
      (fun e =>
         log ERROR (MsgPullFailed uri e) ;;
         ret (Some (false, "pull-failed"))) ;;
    match pulled with
    | Some r => ret r
    | None =>
        deleted <- try_except
          (log INFO (MsgDeleting uri) ;;
           delete_image_tag ecr repo_name tag ;;
           log INFO (MsgDeleted uri) ;;
           ret None)
          is_boto_error
          (fun e =>
             log ERROR (MsgDeleteFailed uri e) ;;
             ret (Some (false, "delete-failed"))) ;;
        match deleted with
        | Some r => ret r
        | None =>
            pushed <- try_except
              (log INFO (MsgPushing uri) ;;
               subprocess_run ["docker"; "push"; uri] None ;;
               log INFO (MsgPushed uri) ;;
               ret None)
              is_called_process_error
              (fun e =>
                 log ERROR (MsgPushFailed uri e) ;;
                 ret (Some (false, "push-failed"))) ;;
            match pushed with
            | Some r => ret r
            | None => ret (true, "ok")
            end
        end
    end.

(** [for tag in tags:] of [main]. *)
Fixpoint process_tags (ecr : client) (args : Args) (repo : string)
  (tags : list string) (c : counters) : M World counters :=
  match tags with
  | [] => ret c
  | tag :: rest =>
      let c := Counters (total_repos c) (total_tags c + 1) (successes c) (failures c) in
      r <- process_tag ecr repo tag (account_id args) (region args) (dry_run args) ;;
      let '(ok, reason) := r in
      c <- (if ok : bool then
              ret (Counters (total_repos c) (total_tags c) (successes c + 1) (failures c))
            else
              log WARNING (MsgActionFailed repo tag reason) ;;
              ret (Counters (total_repos c) (total_tags c) (successes c) (failures c + 1))) ;;
      process_tags ecr args repo rest c
  end.

(** [for repo in repos:] of [main]. *)
Fixpoint process_repos (ecr : client) (args : Args) (repos : list string)
  (c : counters) : M World counters :=
  match repos with
  | [] => ret c
  | repo :: rest =>
      tags <- get_last_three_tags ecr repo ;;
      match tags with
      | [] =>
          log INFO (MsgNoRecentTags repo) ;;
          process_repos ecr args rest c
      | _ :: _ =>
          let c := Counters (total_repos c + 1) (total_tags c) (successes c) (failures c) in
          log INFO (MsgProcessingRepo repo tags) ;;
          c <- process_tags ecr args repo tags c ;;
          process_repos ecr args rest c
      end
  end.

(** [main], from the parsed arguments on.  [logged_in] is false when the
    handler of the login's [try] returned from [main]. *)
Definition main (args : Args) : M World unit :=
  let _ := setup_logging (verbose args) (log_file args) in
  let ecr := get_ecr_client (region args) (profile args) in
  logged_in <-
    (if negb (dry_run args) then
       try_except
         (docker_login (account_id args) (region args) (profile args) ;;
          ret true)
         is_called_process_error
         (fun e =>
            log CRITICAL (MsgLoginFailed e) ;;
            ret false)
     else ret true) ;;
  if logged_in : bool then
    repos <- get_repositories_with_prefix ecr (prefix args) ;;
    c <- process_repos ecr args repos (Counters 0 0 0 0) ;;
    log INFO MsgSummary ;;
    log INFO (MsgReposTouched (total_repos c)) ;;
    log INFO (MsgTagsAttempted (total_tags c) (successes c) (failures c)) ;;
    (if dry_run args then log INFO MsgModeDryRun else ret tt)
  else ret tt.

(** [if __name__ == "__main__": main()]: the interpreter ends with status 0
    when [main] returns and, after printing the traceback, with status 1 when
    an exception leaves [main]. *)
Definition exit_status (r : result unit) : Z :=
  match r with
  | inr _ => 0%Z
  | inl _ => 1%Z
  end.

Definition run_script (args : Args) (w : World) : Z * list event :=
  let '(r, _, t) := main args w in (exit_status r, t).

End Script.

Arguments exit_status r : simpl nomatch.

(** ** Observations on a transcript *)

(** What [get_last_three_tags] makes of the paginator's answer. *)
Definition ranking_of (res : listing image) : result (list string) :=
  match snd res with
  | Some e => if is_boto_error e then inr [] else inl e
  | None => rank_images (images_of_pages (fst res) [])
  end.

Definition tags_or_none (r : result (list string)) : list string :=
  match r with
  | inr tags => tags
  | inl _ => []
  end.

(** The image listings that were requested, in order, with their answers. *)
Definition image_listings (t : list event) : list (string * listing image) :=
  flat_map (fun ev =>
              match ev with
              | EvDescribeImages _ repo _ res => [(repo, res)]
              | _ => []
              end) t.

(** The tag ranking of every repository whose images were listed. *)
Definition rankings (t : list event) : list (list string) :=
  map (fun x => tags_or_none (ranking_of (snd x))) (image_listings t).

(** The names that discovery kept, read off the listing of repositories. *)
Definition discovered (prefix : string) (t : list event) : list string :=
  flat_map (fun ev =>
              match ev with
              | EvDescribeRepositories _ res => matching_in_pages prefix (fst res) []
              | _ => []
              end) t.

Definition nonempty {A : Type} (l : list A) : bool :=
  match l with
  | [] => false
  | _ :: _ => true
  end.

(** A pull or a push of the container tool. *)
Definition is_pull_or_push (argv : list string) : bool :=
  match argv with
  | cmd :: sub :: _ => (cmd =? "docker")%string && ((sub =? "pull") || (sub =? "push"))%string
  | _ => false
  end.

(** The three external calls of the refresh cycle. *)
Definition is_refresh_call (ev : event) : bool :=
  match ev with
  | EvRun argv _ _ => is_pull_or_push argv
  | EvBatchDeleteImage _ _ _ _ => true
  | _ => false
  end.

(** Any command run on the host and any deletion in the registry. *)
Definition is_command_or_delete (ev : event) : bool :=
  match ev with
  | EvRun _ _ _ => true
  | EvBatchDeleteImage _ _ _ _ => true
  | _ => false
  end.

(** Discovery and everything done for a repository or a tag: the listings,
    the refresh calls, and the log lines of the loop and of the worker. *)
Definition is_repository_work (ev : event) : bool :=
  match ev with
  | EvDescribeRepositories _ _ => true
  | EvDescribeImages _ _ _ _ => true
  | EvBatchDeleteImage _ _ _ _ => true
  | EvRun argv _ _ => is_pull_or_push argv
  | EvLog _ (MsgRunning _) => false
  | EvLog _ (MsgLoggingIn _) => false
  | EvLog _ (MsgLoginFailed _) => false
  | EvLog _ _ => true
  end.

(** Repositories whose images were listed, and tags handed to the worker
    (each call of the worker starts with exactly one of two log lines). *)
Definition repositories_attempted (t : list event) : nat :=
  length (image_listings t).

Definition starts_worker (ev : event) : bool :=
  match ev with
  | EvLog _ (MsgDryRunWould _) => true
  | EvLog _ (MsgPulling _) => true
  | _ => false
  end.

Definition tags_attempted (t : list event) : nat :=
  length (filter starts_worker t).

(** The external calls of a transcript, without the log lines. *)
Definition is_external (ev : event) : bool :=
  match ev with
  | EvLog _ _ => false
  | _ => true
  end.

Definition external_calls (t : list event) : list event := filter is_external t.

(** ** Sample environments *)

(** An environment without state: each oracle answers by a fixed table. *)
Definition table_env (run : list string -> result string)
  (repos : listing repository) (images : string -> listing image)
  (del : string -> string -> result unit) : Env unit :=
  MkEnv unit
    (fun argv _ w => (run argv, w))
    (fun _ w => (repos, w))
    (fun _ repo _ w => (images repo, w))
    (fun _ repo tag w => (del repo tag, w)).

Definition repo_named (n : string) : repository := Repository (Some n).

(** The scenario of the specification: three repositories, two under the
    prefix; [github/a] holds an older image tagged v1 and v2 and a newer one
    tagged v3. *)
Definition sample_repos : listing repository :=
  ([Some [repo_named "github/a"; repo_named "other/b"]; Some [repo_named "github/c"]], None).

Definition sample_images (repo : string) : listing image :=
  if (repo =? "github/a")%string then
    ([Some [Image (Some 100%Z) (Some ["v1"; "v2"])]; Some [Image (Some 200%Z) (Some ["v3"])]],
     None)
  else ([], None).

Definition sample_args (dry : bool) : Args :=
  MkArgs "github/" "123456789012" "us-east-1" None dry None false.

(** Everything succeeds. *)
Definition sample_env : Env unit :=
  table_env (fun _ => inr "") sample_repos sample_images (fun _ _ => inr tt).

(** Every command of the host exits non-zero. *)
Definition failing_host_env : Env unit :=
  table_env (fun _ => inl CalledProcessError) sample_repos sample_images
    (fun _ _ => inr tt).

(** The registry refuses the deletion. *)
Definition failing_delete_env : Env unit :=
  table_env (fun _ => inr "") sample_repos sample_images (fun _ _ => inl ClientError).

(** Pulls succeed and pushes fail. *)
Definition failing_push_env : Env unit :=
  table_env
    (fun argv => match argv with
                 | _ :: sub :: _ => if (sub =? "push")%string then inl CalledProcessError else inr ""
                 | _ => inr ""
                 end)
    sample_repos sample_images (fun _ _ => inr tt).

(** The registry refuses to list the repositories. *)
Definition denied_env : Env unit :=
  table_env (fun _ => inr "") ([], Some ClientError) sample_images (fun _ _ => inr tt).

(** The registry refuses to list the images of a repository. *)
Definition no_images_env : Env unit :=
  table_env (fun _ => inr "") sample_repos (fun _ => ([], Some ClientError))
    (fun _ _ => inr tt).

(** A listing in which the second image has no push time. *)
Definition undated_images : list image :=
  [Image (Some 1704067200000000%Z) (Some ["new"]); Image None (Some ["old"])].

Definition undated_env : Env unit :=
  table_env (fun _ => inr "") sample_repos (fun _ => ([Some undated_images], None))
    (fun _ _ => inr tt).

(** ** The events each part of the script can produce *)

(** Events of [docker_login]: its two log lines and commands other than a
    pull or a push. *)
Definition login_event (ev : event) : bool :=
  match ev with
  | EvLog DEBUG (MsgRunning _) => true
  | EvLog INFO (MsgLoggingIn _) => true
  | EvRun argv _ _ => negb (is_pull_or_push argv)
  | _ => false
  end.

(** Events of [get_repositories_with_prefix]. *)
Definition discovery_event (ev : event) : bool :=
  match ev with
  | EvDescribeRepositories _ _ => true
  | EvLog INFO (MsgDiscovered _ _) => true
  | EvLog DEBUG (MsgRepositories _) => true
  | _ => false
  end.

(** Events of [process_tag]: one log line in dry-run mode; otherwise the
    three calls on the given image reference and their log lines. *)
Definition worker_event (dry : bool) (ecr : client) (repo tag uri : string)
  (ev : event) : bool :=
  match ev with
  | EvLog INFO (MsgDryRunWould u) => dry && (u =? uri)%string
  | EvLog INFO (MsgPulling u) | EvLog INFO (MsgPulled u)
  | EvLog INFO (MsgDeleting u) | EvLog INFO (MsgDeleted u)
  | EvLog INFO (MsgPushing u) | EvLog INFO (MsgPushed u)
  | EvLog ERROR (MsgPullFailed u _) | EvLog ERROR (MsgDeleteFailed u _)
  | EvLog ERROR (MsgPushFailed u _) => negb dry && (u =? uri)%string
  | EvRun [cmd; sub; u] None _ =>
      negb dry && (cmd =? "docker")%string
      && ((sub =? "pull") || (sub =? "push"))%string && (u =? uri)%string
  | EvBatchDeleteImage c r t _ =>
      negb dry && (r =? repo)%string && (t =? tag)%string
  | _ => false
  end.

(** Events of the loop of [main]: listings of images, the log lines of the
    loop, and events of the worker for some reference. *)
Definition loop_event (dry : bool) (ev : event) : bool :=
  match ev with
  | EvDescribeImages _ _ _ _ => true
  | EvLog ERROR (MsgListTagsFailed _ _) => true
  | EvLog INFO (MsgNoRecentTags _) => true
  | EvLog INFO (MsgProcessingRepo _ _) => true
  | EvLog WARNING (MsgActionFailed _ _ _) => negb dry
  | EvLog INFO (MsgDryRunWould _) => dry
  | EvLog INFO (MsgPulling _) | EvLog INFO (MsgPulled _)
  | EvLog INFO (MsgDeleting _) | EvLog INFO (MsgDeleted _)
  | EvLog INFO (MsgPushing _) | EvLog INFO (MsgPushed _)
  | EvLog ERROR (MsgPullFailed _ _) | EvLog ERROR (MsgDeleteFailed _ _)
  | EvLog ERROR (MsgPushFailed _ _) => negb dry
  | EvRun argv _ _ => negb dry && is_pull_or_push argv
  | EvBatchDeleteImage _ _ _ _ => negb dry
  | _ => false
  end.

(** The lines of the summary. *)
Definition summary_lines (args : Args) (c : counters) : list event :=
  [EvLog INFO MsgSummary;
   EvLog INFO (MsgReposTouched (total_repos c));
   EvLog INFO (MsgTagsAttempted (total_tags c) (successes c) (failures c))]
  ++ (if dry_run args then [EvLog INFO MsgModeDryRun] else []).

Definition is_summary_line (ev : event) : bool :=
  match ev with
  | EvLog _ MsgSummary => true
  | EvLog _ (MsgReposTouched _) => true
  | EvLog _ (MsgTagsAttempted _ _ _) => true
  | EvLog _ MsgModeDryRun => true
  | _ => false
  end.

(** ** Further observations on a transcript *)

(** The image references the worker was started on, in order, read off its
    opening log lines. *)
Definition started_refs (t : list event) : list string :=
  flat_map (fun ev =>
              match ev with
              | EvLog _ (MsgDryRunWould u) => [u]
              | EvLog _ (MsgPulling u) => [u]
              | _ => []
              end) t.

(** The warning that [main] writes for a tag whose refresh failed. *)
Definition is_failure_warning (ev : event) : bool :=
  match ev with
  | EvLog WARNING (MsgActionFailed _ _ _) => true
  | _ => false
  end.

(** The number of such warnings. *)
Definition failure_warnings (t : list event) : nat :=
  length (filter is_failure_warning t).

(** The references of the ranked tags of the image listings of a
    transcript, listing by listing. *)
Definition ranked_refs (args : Args) (t : list event) : list string :=
  flat_map (fun x => map (image_uri (account_id args) (region args) (fst x))
                       (tags_or_none (ranking_of (snd x))))
    (image_listings t).

(** The command that asks for the registry password. *)
Definition password_command (region : string) (profile : option string) : list string :=
  ["aws"; "ecr"; "get-login-password"; "--region"; region]
  ++ (if truthy profile then ["--profile"; str_or_empty profile] else []).

(** The login command of the container tool. *)
Definition container_login_command (account_id region : string) : list string :=
  ["docker"; "login"; "--username"; "AWS"; "--password-stdin";
   registry_host account_id region].

(** The first step of [main]: nothing in dry-run mode, the login otherwise. *)
Definition login_step {World : Type} (env : Env World) (args : Args) (w : World)
  : result unit * World * list event :=
  if dry_run args then (inr tt, w, [])
  else docker_login env (account_id args) (region args) (profile args) w.

(** The password command prints a password; every other command succeeds
    silently. *)
Definition password_env : Env unit :=
  table_env (fun argv => match argv with
                         | "aws" :: _ => inr "secret"
                         | _ => inr ""
                         end)
    sample_repos sample_images (fun _ _ => inr tt).

(** The container tool is not installed: every command of the host fails to
    start. *)
Definition missing_tool_env : Env unit :=
  table_env (fun _ => inl OSError) sample_repos sample_images (fun _ _ => inr tt).

(** * Properties *)

(** ** Distinct names *)

Lemma tag_in_In (t : string) (tags : list string) :
  tag_in t tags = true <-> In t tags.
Proof.
  unfold tag_in. rewrite existsb_exists. split.
  - intros [x [Hx Heq]]. apply String.eqb_eq in Heq. now subst.
  - intros H. exists t. split; [assumption | apply String.eqb_refl].
Qed.

Lemma add_tag_cases (tags : list string) (t : string) :
  (In t tags /\ add_tag tags t = tags) \/ (~ In t tags /\ add_tag tags t = tags ++ [t]).
Proof.
  unfold add_tag. destruct (tag_in t tags) eqn:E.
  - left. split; [now apply tag_in_In | reflexivity].
  - right. split; [| reflexivity].
    intros H. apply tag_in_In in H. congruence.
Qed.

Lemma add_tag_length (tags : list string) (t : string) :
  length tags <= length (add_tag tags t) <= S (length tags).
Proof.
  destruct (add_tag_cases tags t) as [[_ ->] | [_ ->]].
  - lia.
  - rewrite length_app. simpl. lia.
Qed.

Lemma add_tag_NoDup (tags : list string) (t : string) :
  NoDup tags -> NoDup (add_tag tags t).
Proof.
  intros H. destruct (add_tag_cases tags t) as [[_ ->] | [Hn ->]]; [assumption |].
  apply NoDup_app; repeat split.
  - assumption.
  - constructor; [intros [] | constructor].
  - intros x Hx [<- | []]. contradiction.
Qed.

Lemma add_tag_In (tags : list string) (t x : string) :
  In x (add_tag tags t) <-> In x tags \/ x = t.
Proof.
  destruct (add_tag_cases tags t) as [[Hi ->] | [_ ->]].
  - split; [now left | intros [H | ->]; assumption].
  - rewrite in_app_iff. simpl. intuition (subst; auto).
Qed.

Lemma distinct_onto_cons (seen : list string) (t : string) (l : list string) :
  distinct_onto seen (t :: l) = distinct_onto (add_tag seen t) l.
Proof. reflexivity. Qed.

Lemma distinct_onto_app (seen l1 l2 : list string) :
  distinct_onto seen (l1 ++ l2) = distinct_onto (distinct_onto seen l1) l2.
Proof. unfold distinct_onto. apply fold_left_app. Qed.

Lemma distinct_onto_extends (l seen : list string) :
  exists more, distinct_onto seen l = seen ++ more.
Proof.
  revert seen. induction l as [| t l IH]; intros seen.
  - exists []. simpl. now rewrite app_nil_r.
  - rewrite distinct_onto_cons. destruct (IH (add_tag seen t)) as [more Hm].
    rewrite Hm. destruct (add_tag_cases seen t) as [[_ ->] | [_ ->]].
    + now exists more.
    + exists ([t] ++ more). now rewrite app_assoc.
Qed.

Lemma distinct_onto_NoDup (l seen : list string) :
  NoDup seen -> NoDup (distinct_onto seen l).
Proof.
  revert seen. induction l as [| t l IH]; intros seen H; [assumption |].
  rewrite distinct_onto_cons. apply IH. now apply add_tag_NoDup.
Qed.

Lemma distinct_onto_In (l seen : list string) (x : string) :
  In x (distinct_onto seen l) <-> In x seen \/ In x l.
Proof.
  revert seen. induction l as [| t l IH]; intros seen.
  - simpl. tauto.
  - rewrite distinct_onto_cons, IH, add_tag_In. simpl. intuition auto.
Qed.

Lemma distinct_onto_length (l seen : list string) :
  length seen <= length (distinct_onto seen l).
Proof.
  destruct (distinct_onto_extends l seen) as [more ->].
  rewrite length_app. lia.
Qed.

Lemma firstn_extends {A : Type} (seen more : list A) :
  firstn (length seen) (seen ++ more) = seen.
Proof.
  rewrite firstn_app, Nat.sub_diag, firstn_all. simpl. apply app_nil_r.
Qed.

(** [distinct] counts the distinct names: it has the elements of the
    sequence, without repetition, as many as the library's [nodup] keeps. *)
Lemma distinct_NoDup (l : list string) : NoDup (distinct l).
Proof. apply distinct_onto_NoDup. constructor. Qed.

Lemma distinct_In (l : list string) (x : string) : In x (distinct l) <-> In x l.
Proof. unfold distinct. rewrite distinct_onto_In. simpl. tauto. Qed.

Lemma distinct_length_nodup (l : list string) :
  length (distinct l) = length (nodup string_dec l).
Proof.
  apply Permutation_length, NoDup_Permutation.
  - apply distinct_NoDup.
  - apply NoDup_nodup.
  - intros x. now rewrite distinct_In, nodup_In.
Qed.

(** ** The walk over the tags *)

#[local] Arguments firstn : simpl never.
#[local] Arguments Nat.eqb : simpl never.

Lemma walk_tags_firstn (ts tags : list string) :
  length tags < 3 -> walk_tags ts tags = firstn 3 (distinct_onto tags ts).
Proof.
  revert tags. induction ts as [| t ts IH]; intros tags Hlen.
  - simpl. symmetry. apply firstn_all2. lia.
  - rewrite distinct_onto_cons. simpl.
    pose proof (add_tag_length tags t) as Hadd.
    destruct (length (add_tag tags t) =? 3)%nat eqn:E.
    + apply Nat.eqb_eq in E.
      destruct (distinct_onto_extends ts (add_tag tags t)) as [more ->].
      rewrite <- E. symmetry. apply firstn_extends.
    + apply Nat.eqb_neq in E. apply IH. lia.
Qed.

Lemma walk_images_firstn (imgs : list image) (tags : list string) :
  length tags < 3 ->
  walk_images imgs tags = firstn 3 (distinct_onto tags (tag_stream imgs)).
Proof.
  revert tags. induction imgs as [| img rest IH]; intros tags Hlen.
  - simpl. symmetry. apply firstn_all2. lia.
  - simpl. unfold tag_stream in *. rewrite distinct_onto_app.
    rewrite (walk_tags_firstn _ _ Hlen).
    set (c := distinct_onto tags (tags_of img)).
    destruct (length (firstn 3 c) =? 3)%nat eqn:E.
    + apply Nat.eqb_eq in E.
      destruct (distinct_onto_extends (flat_map tags_of rest) c) as [more ->].
      rewrite length_firstn in E.
      rewrite firstn_app. replace (3 - length c) with 0 by lia.
      simpl. now rewrite app_nil_r.
    + apply Nat.eqb_neq in E. rewrite length_firstn in E.
      rewrite firstn_all2 by lia. apply IH. lia.
Qed.

Lemma walk_images_distinct (imgs : list image) :
  walk_images imgs [] = firstn 3 (distinct (tag_stream imgs)).
Proof. apply walk_images_firstn. simpl. lia. Qed.

Lemma NoDup_firstn {A : Type} (n : nat) (l : list A) : NoDup l -> NoDup (firstn n l).
Proof.
  intros H. rewrite <- (firstn_skipn n l) in H. now apply NoDup_app_remove_r in H.
Qed.

Lemma walk_images_length (imgs : list image) : length (walk_images imgs []) <= 3.
Proof. rewrite walk_images_distinct. apply firstn_le_length. Qed.

(** The ghost counter does not change what the loops collect. *)
Lemma walk_tags_count_fst (ts tags : list string) (n : nat) :
  fst (walk_tags_count ts tags n) = walk_tags ts tags.
Proof.
  revert tags n. induction ts as [| t ts IH]; intros tags n; simpl; [reflexivity |].
  destruct (length (add_tag tags t) =? 3)%nat; [reflexivity | apply IH].
Qed.

Lemma walk_images_count_fst (imgs : list image) (tags : list string) (n : nat) :
  fst (walk_images_count imgs tags n) = walk_images imgs tags.
Proof.
  revert tags n. induction imgs as [| img rest IH]; intros tags n; simpl; [reflexivity |].
  pose proof (walk_tags_count_fst (tags_of img) tags n) as H.
  destruct (walk_tags_count (tags_of img) tags n) as [tags' n']. simpl in H. subst tags'.
  destruct (length (walk_tags (tags_of img) tags) =? 3)%nat; [reflexivity | apply IH].
Qed.

Lemma walk_tags_count_stops (ts tags : list string) (n : nat) :
  length tags < 3 ->
  exists m, snd (walk_tags_count ts tags n) = n + m /\
            stops_at tags ts (fst (walk_tags_count ts tags n)) m.
Proof.
  revert tags n. induction ts as [| t ts IH]; intros tags n Hlen.
  - exists 0. simpl. unfold stops_at. simpl. repeat split; try lia.
  - simpl. pose proof (add_tag_length tags t) as Hadd.
    destruct (length (add_tag tags t) =? 3)%nat eqn:E.
    + apply Nat.eqb_eq in E. exists 1. simpl. unfold stops_at. simpl.
      repeat split; try lia.
      intros j Hj. replace j with 0 by lia. assumption.
    + apply Nat.eqb_neq in E.
      destruct (IH (add_tag tags t) (S n)) as [m [Hm [H1 [H2 [H3 H4]]]]]; [lia |].
      exists (S m). split; [lia |]. unfold stops_at. simpl. repeat split.
      * lia.
      * assumption.
      * intros H. apply H3. lia.
      * intros [| j] Hj; [assumption |]. apply H4. lia.
Qed.

Lemma firstn_app_left {A : Type} (j : nat) (l1 l2 : list A) :
  j <= length l1 -> firstn j (l1 ++ l2) = firstn j l1.
Proof.
  intros H. rewrite firstn_app. replace (j - length l1) with 0 by lia.
  simpl. apply app_nil_r.
Qed.

Lemma walk_images_count_stops (imgs : list image) (tags : list string) (n : nat) :
  length tags < 3 ->
  exists m, snd (walk_images_count imgs tags n) = n + m /\
            stops_at tags (tag_stream imgs) (fst (walk_images_count imgs tags n)) m.
Proof.
  revert tags n. induction imgs as [| img rest IH]; intros tags n Hlen.
  - exists 0. simpl. unfold stops_at. simpl. repeat split; try lia.
  - simpl. unfold tag_stream. simpl. fold (tag_stream rest).
    destruct (walk_tags_count_stops (tags_of img) tags n Hlen)
      as [m1 [Hk [H1 [H2 [H3 H4]]]]].
    assert (length (fst (walk_tags_count (tags_of img) tags n)) <= 3) as Hle3.
    { rewrite walk_tags_count_fst, walk_tags_firstn by assumption.
      apply firstn_le_length. }
    destruct (walk_tags_count (tags_of img) tags n) as [r1 k1].
    simpl in Hk, H2, H3, Hle3. subst k1.
    destruct (length r1 =? 3)%nat eqn:E.
    + apply Nat.eqb_eq in E. exists m1. split; [reflexivity |].
      unfold stops_at. simpl. rewrite length_app. repeat split.
      * lia.
      * now rewrite firstn_app_left.
      * intros _. assumption.
      * intros j Hj. rewrite firstn_app_left by lia. now apply H4.
    + apply Nat.eqb_neq in E.
      assert (m1 = length (tags_of img)) as Hm1.
      { destruct (Nat.eq_dec m1 (length (tags_of img))) as [|Hne]; [assumption |].
        exfalso. apply E, H3. lia. }
      subst m1. rewrite firstn_all in H2.
      assert (length r1 < 3) as Hr1 by lia.
      destruct (IH r1 (n + length (tags_of img)) Hr1) as [m2 [Hk2 [G1 [G2 [G3 G4]]]]].
      exists (length (tags_of img) + m2). split; [lia |].
      unfold stops_at. rewrite length_app. repeat split.
      * lia.
      * rewrite firstn_app_2, distinct_onto_app, <- H2. assumption.
      * intros H. apply G3. lia.
      * intros j Hj.
        destruct (Nat.le_gt_cases j (length (tags_of img))) as [Hle | Hgt].
        -- rewrite firstn_app_left by assumption.
           destruct (Nat.eq_dec j (length (tags_of img))) as [-> | Hne].
           ++ rewrite firstn_all, <- H2. assumption.
           ++ apply H4. lia.
        -- replace j with (length (tags_of img) + (j - length (tags_of img))) by lia.
           rewrite firstn_app_2, distinct_onto_app, <- H2. apply G4. lia.
Qed.

(** ** The sort *)

Lemma py_lt_pushed (x y : image) (b : bool) :
  py_lt (pushed_key x) (pushed_key y) = inr b ->
  has_push_time x = has_push_time y /\ b = (pushed_instant x <? pushed_instant y)%Z.
Proof.
  unfold pushed_key, has_push_time, pushed_instant.
  destruct (imagePushedAt x), (imagePushedAt y); simpl; intros H;
    try discriminate; injection H as <-; split; reflexivity.
Qed.

Lemma py_lt_same_kind (x y : image) :
  has_push_time x = has_push_time y ->
  py_lt (pushed_key x) (pushed_key y) = inr (pushed_instant x <? pushed_instant y)%Z.
Proof.
  unfold pushed_key, has_push_time, pushed_instant.
  destruct (imagePushedAt x), (imagePushedAt y); simpl; intros H;
    try discriminate; reflexivity.
Qed.

Lemma py_lt_raises (x y : image) (e : exn) :
  py_lt (pushed_key x) (pushed_key y) = inl e ->
  e = TypeError /\ has_push_time x <> has_push_time y.
Proof.
  unfold pushed_key, has_push_time.
  destruct (imagePushedAt x), (imagePushedAt y); simpl; intros H;
    try discriminate; injection H as <-; split; (reflexivity || discriminate).
Qed.

Ltac insert_cases x y r H :=
  simpl in H;
  let b := fresh "b" in
  let e := fresh "e" in
  let Hlt := fresh "Hlt" in
  let Hins := fresh "Hins" in
  destruct (py_lt (pushed_key x) (pushed_key y)) as [e | [|]] eqn:Hlt;
  [ | destruct (insert_desc x r) as [e | ?] eqn:Hins | ].

Lemma insert_desc_perm (x : image) (l r : list image) :
  insert_desc x l = inr r -> Permutation (x :: l) r.
Proof.
  revert r. induction l as [| y l IH]; intros r H.
  - injection H as <-. apply Permutation_refl.
  - insert_cases x y l H; try discriminate; injection H as <-.
    + rewrite perm_swap. apply perm_skip. now apply IH.
    + apply Permutation_refl.
Qed.

Lemma insert_desc_total (x : image) (l : list image) :
  Forall (fun y => has_push_time x = has_push_time y) l ->
  exists r, insert_desc x l = inr r.
Proof.
  induction 1 as [| y l Hy Hl IH]; simpl.
  - now exists [x].
  - rewrite (py_lt_same_kind _ _ Hy).
    destruct (pushed_instant x <? pushed_instant y)%Z.
    + destruct IH as [r ->]. now exists (y :: r).
    + now exists (x :: y :: l).
Qed.

Lemma insert_desc_raises (x : image) (l : list image) (e : exn) :
  insert_desc x l = inl e -> e = TypeError.
Proof.
  induction l as [| y l IH]; intros H; [discriminate |].
  insert_cases x y l H; try discriminate.
  - injection H as <-. now apply py_lt_raises in Hlt.
  - injection H as <-. now apply IH.
Qed.

Lemma insert_desc_head (x h : image) (l r : list image) :
  insert_desc x (h :: l) = inr r -> has_push_time x = has_push_time h.
Proof.
  intros H. insert_cases x h l H; try discriminate;
    now apply py_lt_pushed in Hlt.
Qed.

Lemma insert_desc_sorted (x : image) (l r : list image) :
  StronglySorted newer_or_equal l -> insert_desc x l = inr r ->
  StronglySorted newer_or_equal r.
Proof.
  revert r. induction l as [| y l IH]; intros r Hs H.
  - injection H as <-. repeat constructor.
  - apply StronglySorted_inv in Hs. destruct Hs as [Hs Hy].
    insert_cases x y l H; try discriminate; injection H as <-;
      apply py_lt_pushed in Hlt; destruct Hlt as [_ Hlt]; symmetry in Hlt.
    + constructor; [now apply IH |].
      apply (Permutation_Forall (insert_desc_perm _ _ _ Hins)).
      constructor; [| assumption].
      unfold newer_or_equal. apply Z.ltb_lt in Hlt. lia.
    + apply Z.ltb_ge in Hlt. constructor.
      * now constructor.
      * constructor; [assumption |].
        eapply Forall_impl; [| exact Hy].
        unfold newer_or_equal. intros a Ha. lia.
Qed.

(** Images pushed at the same instant keep the order of the listing. *)
Lemma insert_desc_stable (k : Z) (x : image) (l r : list image) :
  insert_desc x l = inr r -> filter (pushed_at k) r = filter (pushed_at k) (x :: l).
Proof.
  revert r. induction l as [| y l IH]; intros r H.
  - now injection H as <-.
  - insert_cases x y l H; try discriminate; injection H as <-; [| reflexivity].
    apply py_lt_pushed in Hlt. destruct Hlt as [_ Hlt]. symmetry in Hlt.
    apply Z.ltb_lt in Hlt.
    change (filter (pushed_at k) (y :: l0))
      with (if pushed_at k y then y :: filter (pushed_at k) l0 else filter (pushed_at k) l0).
    rewrite (IH _ eq_refl). simpl. unfold pushed_at.
    destruct (pushed_instant x =? k)%Z eqn:Ex, (pushed_instant y =? k)%Z eqn:Ey;
      try reflexivity.
    apply Z.eqb_eq in Ex, Ey. lia.
Qed.

Lemma sort_images_perm (l s : list image) :
  sort_images l = inr s -> Permutation l s.
Proof.
  revert s. induction l as [| x l IH]; intros s H; simpl in H.
  - injection H as <-. constructor.
  - destruct (sort_images l) as [e | s'] eqn:E; [discriminate |].
    rewrite <- (insert_desc_perm _ _ _ H). apply perm_skip. now apply IH.
Qed.

Lemma sort_images_sorted (l s : list image) :
  sort_images l = inr s -> StronglySorted newer_or_equal s.
Proof.
  revert s. induction l as [| x l IH]; intros s H; simpl in H.
  - injection H as <-. constructor.
  - destruct (sort_images l) as [e | s'] eqn:E; [discriminate |].
    eapply insert_desc_sorted; [| exact H]. now apply IH.
Qed.

Lemma sort_images_stable (k : Z) (l s : list image) :
  sort_images l = inr s -> filter (pushed_at k) s = filter (pushed_at k) l.
Proof.
  revert s. induction l as [| x l IH]; intros s H; simpl in H.
  - now injection H as <-.
  - destruct (sort_images l) as [e | s'] eqn:E; [discriminate |].
    rewrite (insert_desc_stable k _ _ _ H). simpl. now rewrite (IH _ eq_refl).
Qed.

Lemma sort_images_raises (l : list image) (e : exn) :
  sort_images l = inl e -> e = TypeError.
Proof.
  induction l as [| x l IH]; intros H; simpl in H; [discriminate |].
  destruct (sort_images l) as [e' | s'] eqn:E.
  - injection H as <-. now apply IH.
  - now apply insert_desc_raises in H.
Qed.

Lemma comparable_iff (l : list image) :
  comparable l = true <->
  forall a b, In a l -> In b l -> has_push_time a = has_push_time b.
Proof.
  induction l as [| x l IH]; simpl.
  - split; [intros _ a b [] | reflexivity].
  - rewrite andb_true_iff, forallb_forall, IH. unfold same_kind. split.
    + intros [Hx Hl] a b [<- | Ha] [<- | Hb].
      * reflexivity.
      * apply eqb_prop. now apply Hx.
      * symmetry. apply eqb_prop. now apply Hx.
      * now apply Hl.
    + intros H. split.
      * intros y Hy. rewrite (H x y); [apply eqb_reflx | now left | now right].
      * intros a b Ha Hb. apply H; now right.
Qed.

(** The sort returns exactly when the keys are of one type. *)
Lemma sort_images_total (l : list image) :
  comparable l = true -> exists s, sort_images l = inr s.
Proof.
  induction l as [| x l IH]; intros H; simpl.
  - now exists [].
  - simpl in H. apply andb_true_iff in H. destruct H as [Hx Hl].
    destruct (IH Hl) as [s Hs]. rewrite Hs.
    apply insert_desc_total.
    apply (Permutation_Forall (sort_images_perm _ _ Hs)).
    apply Forall_forall. intros y Hy.
    rewrite forallb_forall in Hx. apply eqb_prop. now apply Hx.
Qed.

Lemma sort_images_comparable (l s : list image) :
  sort_images l = inr s -> comparable l = true.
Proof.
  revert s. induction l as [| x l IH]; intros s H; [reflexivity |].
  simpl in H. destruct (sort_images l) as [e | s'] eqn:E; [discriminate |].
  pose proof (IH _ eq_refl) as Hl.
  simpl. rewrite Hl, andb_true_r. apply forallb_forall. intros y Hy.
  unfold same_kind.
  destruct s' as [| h t].
  - apply sort_images_perm, Permutation_sym, Permutation_nil in E. subst l.
    destruct Hy.
  - rewrite (insert_desc_head _ _ _ _ H).
    rewrite comparable_iff in Hl.
    rewrite (Hl h y); [apply eqb_reflx | | assumption].
    apply (Permutation_in _ (Permutation_sym (sort_images_perm _ _ E))). now left.
Qed.

(** ** Ranking as a whole *)

Lemma rank_images_raises (imgs : list image) (e : exn) :
  rank_images imgs = inl e -> e = TypeError.
Proof.
  unfold rank_images. destruct imgs as [| x r]; [discriminate |].
  destruct (sort_images (x :: r)) as [e' | s] eqn:E; [| discriminate].
  intros H. injection H as <-. now apply sort_images_raises in E.
Qed.

Lemma rank_images_sorted (imgs sorted : list image) :
  sort_images imgs = inr sorted -> rank_images imgs = inr (walk_images sorted []).
Proof.
  intros H. unfold rank_images. destruct imgs as [| x r].
  - simpl in H. now injection H as <-.
  - now rewrite H.
Qed.

Lemma rank_images_length (imgs : list image) (tags : list string) :
  rank_images imgs = inr tags -> length tags <= 3.
Proof.
  unfold rank_images. destruct imgs as [| x r].
  - intros H. injection H as <-. simpl. lia.
  - destruct (sort_images (x :: r)); [discriminate |].
    intros H. injection H as <-. apply walk_images_length.
Qed.

Lemma rank_images_mixed (imgs : list image) (a b : image) :
  In a imgs -> In b imgs -> imagePushedAt a <> None -> imagePushedAt b = None ->
  rank_images imgs = inl TypeError.
Proof.
  intros Ha Hb Hsome Hnone.
  destruct (rank_images imgs) as [e | tags] eqn:E.
  - now rewrite (rank_images_raises _ _ E).
  - exfalso. unfold rank_images in E. destruct imgs as [| x r]; [destruct Ha |].
    destruct (sort_images (x :: r)) as [e | s] eqn:Es; [discriminate |].
    apply sort_images_comparable in Es. rewrite comparable_iff in Es.
    specialize (Es a b Ha Hb). unfold has_push_time in Es.
    rewrite Hnone in Es. destruct (imagePushedAt a); [discriminate | now apply Hsome].
Qed.

(** An image without a tag list adds nothing to the walk. *)
Lemma walk_images_no_tag_list (t : option Z) (rest : list image) (tags : list string) :
  length tags <> 3 ->
  walk_images (Image t None :: rest) tags = walk_images rest tags.
Proof.
  intros H. simpl. apply Nat.eqb_neq in H. now rewrite H.
Qed.

Lemma walk_images_untagged (imgs : list image) (tags : list string) :
  (forall img, In img imgs -> tags_of img = []) -> walk_images imgs tags = tags.
Proof.
  induction imgs as [| img rest IH]; intros H; simpl; [reflexivity |].
  rewrite (H img) by now left. simpl.
  destruct (length tags =? 3)%nat; [reflexivity |].
  apply IH. intros i Hi. apply H. now right.
Qed.

Lemma images_of_pages_concat (pages : list (page image)) (acc : list image) :
  images_of_pages pages acc = acc ++ concat (map page_get pages).
Proof.
  revert acc. induction pages as [| p rest IH]; intros acc; simpl.
  - now rewrite app_nil_r.
  - now rewrite IH, app_assoc.
Qed.

(** The scenario of the specification: the newer image comes first. *)
Example rank_images_scenario :
  rank_images [Image (Some 100%Z) (Some ["v1"; "v2"]); Image (Some 200%Z) (Some ["v3"])]
  = inr ["v3"; "v1"; "v2"].
Proof. reflexivity. Qed.

(** Repeated names are skipped and the walk leaves in the middle of the
    second image, after five of the seven names. *)
Example walk_stops_inside_an_image :
  walk_images_count
    [Image (Some 2%Z) (Some ["a"; "a"; "b"]); Image (Some 1%Z) (Some ["b"; "c"; "d"; "e"])]
    [] 0
  = (["a"; "b"; "c"], 5).
Proof. reflexivity. Qed.

(** Images pushed at the same instant are walked in the order of the listing. *)
Example rank_images_same_instant :
  rank_images [Image (Some 7%Z) (Some ["x"]); Image (Some 9%Z) (Some ["n"]);
               Image (Some 7%Z) (Some ["y"])]
  = inr ["n"; "x"; "y"].
Proof. reflexivity. Qed.

(** Without any push time the keys are all 0 and the listing order is kept. *)
Example rank_images_all_undated :
  rank_images [Image None (Some ["p"]); Image None None; Image None (Some ["q"])]
  = inr ["p"; "q"].
Proof. reflexivity. Qed.

(** A push time next to a missing one: the comparison raises. *)
Example rank_images_undated :
  rank_images undated_images = inl TypeError.
Proof. reflexivity. Qed.

(** ** Discovery: the prefix filter *)

Lemma startswith_spec (name prefix : string) :
  startswith name prefix = true <-> exists rest, name = (prefix ++ rest)%string.
Proof.
  unfold startswith. revert name.
  induction prefix as [| a p IH]; intros name.
  - split; [intros _; now exists name | intros _; now destruct name].
  - destruct name as [| b n]; simpl.
    + split; [discriminate | intros [rest H]; discriminate].
    + destruct (ascii_dec a b) as [-> | Hne].
      * rewrite IH. split; intros [rest H]; exists rest; congruence.
      * split; [discriminate | intros [rest H]; congruence].
Qed.

Lemma matching_names_filter (prefix : string) (repos : list repository)
  (acc : list string) :
  matching_names prefix repos acc
  = acc ++ filter (fun n => startswith n prefix) (map name_of repos).
Proof.
  revert acc. induction repos as [| r rest IH]; intros acc; simpl.
  - now rewrite app_nil_r.
  - rewrite IH. destruct (startswith (name_of r) prefix); [| reflexivity].
    now rewrite <- app_assoc.
Qed.

Lemma matching_in_pages_filter (prefix : string) (pages : list (page repository))
  (acc : list string) :
  matching_in_pages prefix pages acc
  = acc ++ filter (fun n => startswith n prefix)
             (map name_of (concat (map page_get pages))).
Proof.
  revert acc. induction pages as [| p rest IH]; intros acc; simpl.
  - now rewrite app_nil_r.
  - rewrite IH, matching_names_filter, map_app, filter_app. now rewrite app_assoc.
Qed.

(** ** The script against an arbitrary environment *)

Section ScriptFacts.

Context {World : Type} (env : Env World).

(** [get_last_three_tags] in one equation: one listing, its ranking, and an
    error line when the listing failed with an exception of the SDK. *)
Lemma get_last_three_tags_eq (ecr : client) (repo : string) (w : World) :
  get_last_three_tags env ecr repo w
  = (ranking_of (fst (paginate_describe_images env ecr repo "TAGGED" w)),
     snd (paginate_describe_images env ecr repo "TAGGED" w),
     EvDescribeImages ecr repo "TAGGED"
       (fst (paginate_describe_images env ecr repo "TAGGED" w))
     :: match snd (fst (paginate_describe_images env ecr repo "TAGGED" w)) with
        | Some e => if is_boto_error e then [EvLog ERROR (MsgListTagsFailed repo e)] else []
        | None => []
        end).
Proof.
  unfold get_last_three_tags, try_except, bind, describe_images, lift_result, ranking_of.
  destruct (paginate_describe_images env ecr repo "TAGGED" w) as [[pages [e |]] w'];
    simpl.
  - destruct (is_boto_error e); reflexivity.
  - destruct (rank_images (images_of_pages pages [])) as [e | tags] eqn:E;
      [| reflexivity].
    rewrite (rank_images_raises _ _ E). reflexivity.
Qed.

Lemma process_repos_skip (ecr : client) (args : Args) (repo : string)
  (rest : list string) (c : counters) (w w1 : World) (t1 : list event) :
  get_last_three_tags env ecr repo w = (inr [], w1, t1) ->
  process_repos env ecr args (repo :: rest) c w
  = (fst (fst (process_repos env ecr args rest c w1)),
     snd (fst (process_repos env ecr args rest c w1)),
     t1 ++ EvLog INFO (MsgNoRecentTags repo)
        :: snd (process_repos env ecr args rest c w1)).
Proof.
  intros H. simpl. unfold bind at 1. rewrite H.
  unfold bind, log.
  destruct (process_repos env ecr args rest c w1) as [[r w2] t2]. reflexivity.
Qed.

End ScriptFacts.

(** ** Tag ranking *)

(** C1.  When the listing of a repository's tagged images succeeds and the
    push times of its images can be ordered, [get_last_three_tags] returns,
    after that one listing, the first three distinct tag names met when the
    images are walked newest first (a stable rearrangement of the listing),
    each image's tags in their given order: exactly min(3, number of
    distinct names) of them, without duplicates.  The walk examines tag names
    only up to the first point where three distinct names are held, which
    may be in the middle of an image, and otherwise to the end. *)
Theorem C1_ranking_returns_three_newest_distinct_tags
  (World : Type) (env : Env World) (ecr : client) (repo : string)
  (w w' : World) (pages : list (page image)) :
  paginate_describe_images env ecr repo "TAGGED" w = ((pages, None), w') ->
  comparable (images_of_pages pages []) = true ->
  exists (sorted : list image) (tags : list string) (examined : nat),
    sort_images (images_of_pages pages []) = inr sorted /\
    Permutation (images_of_pages pages []) sorted /\
    StronglySorted newer_or_equal sorted /\
    (forall k, filter (pushed_at k) sorted
               = filter (pushed_at k) (images_of_pages pages [])) /\
    get_last_three_tags env ecr repo w
    = (inr tags, w', [EvDescribeImages ecr repo "TAGGED" (pages, None)]) /\
    tags = firstn 3 (distinct (tag_stream sorted)) /\
    length tags = Nat.min 3 (length (nodup string_dec (tag_stream sorted))) /\
    NoDup tags /\
    walk_images_count sorted [] 0 = (tags, examined) /\
    stops_at [] (tag_stream sorted) tags examined.
Proof.
  intros Hlist Hcmp.
  destruct (sort_images_total _ Hcmp) as [sorted Hsort].
  pose proof (walk_images_count_fst sorted [] 0) as Hfst.
  destruct (walk_images_count_stops sorted [] 0) as [m [Hm Hstop]]; [simpl; lia |].
  destruct (walk_images_count sorted [] 0) as [tags examined] eqn:Hwalk.
  simpl in Hfst, Hm, Hstop. subst examined.
  exists sorted, tags, m.
  assert (tags = firstn 3 (distinct (tag_stream sorted))) as Htags
    by (rewrite <- walk_images_distinct; now symmetry).
  split; [assumption |].
  split; [exact (sort_images_perm _ _ Hsort) |].
  split; [exact (sort_images_sorted _ _ Hsort) |].
  split; [intros k; exact (sort_images_stable k _ _ Hsort) |].
  split.
  { rewrite get_last_three_tags_eq, Hlist. unfold ranking_of. simpl.
    rewrite (rank_images_sorted _ _ Hsort). now rewrite Hfst. }
  split; [assumption |].
  split; [rewrite Htags, length_firstn; now rewrite distinct_length_nodup |].
  split; [rewrite Htags; apply NoDup_firstn, distinct_NoDup |].
  split; assumption.
Qed.

(** The scenario of the specification: v3 from the newer image, then v1, v2. *)
Lemma C1_ranking_witness :
  get_last_three_tags sample_env (DefaultClient "us-east-1") "github/a" tt
  = (inr ["v3"; "v1"; "v2"], tt,
     [EvDescribeImages (DefaultClient "us-east-1") "github/a" "TAGGED"
        (sample_images "github/a")]).
Proof.
  destruct (C1_ranking_returns_three_newest_distinct_tags unit sample_env
              (DefaultClient "us-east-1") "github/a" tt tt
              (fst (sample_images "github/a")) eq_refl eq_refl)
    as (sorted & tags & examined & Hsort & _ & _ & _ & Hget & Htags & _).
  injection Hsort as <-. rewrite Hget, Htags. reflexivity.
Defined.

(** C10.  An image record without a push time gets the integer 0 as its sort
    key while the other images get their push time, and the comparison of
    the two kinds of key raises.  So when the listing holds an image with a
    push time and one without, the sort raises [TypeError], which the
    handler of [get_last_three_tags] does not catch: the exception leaves
    the function right after the listing, and no image is ranked at all. *)
Theorem C10_undated_image_makes_ranking_raise
  (World : Type) (env : Env World) (ecr : client) (repo : string)
  (w w' : World) (pages : list (page image)) (a b : image) :
  paginate_describe_images env ecr repo "TAGGED" w = ((pages, None), w') ->
  In a (images_of_pages pages []) ->
  In b (images_of_pages pages []) ->
  imagePushedAt a <> None ->
  imagePushedAt b = None ->
  rank_images (images_of_pages pages []) = inl TypeError /\
  get_last_three_tags env ecr repo w
  = (inl TypeError, w', [EvDescribeImages ecr repo "TAGGED" (pages, None)]).
Proof.
  intros Hlist Ha Hb Hsome Hnone.
  pose proof (rank_images_mixed _ a b Ha Hb Hsome Hnone) as Hrank.
  split; [assumption |].
  rewrite get_last_three_tags_eq, Hlist. unfold ranking_of. simpl.
  now rewrite Hrank.
Qed.

(** A dated image listed next to an undated one. *)
Lemma C10_undated_image_witness :
  rank_images undated_images = inl TypeError /\
  get_last_three_tags undated_env (DefaultClient "us-east-1") "github/a" tt
  = (inl TypeError, tt,
     [EvDescribeImages (DefaultClient "us-east-1") "github/a" "TAGGED"
        ([Some undated_images], None)]).
Proof.
  apply (C10_undated_image_makes_ranking_raise unit undated_env
           (DefaultClient "us-east-1") "github/a" tt tt [Some undated_images]
           (Image (Some 1704067200000000%Z) (Some ["new"]))
           (Image None (Some ["old"]))).
  - reflexivity.
  - simpl. auto.
  - simpl. auto.
  - discriminate.
  - reflexivity.
Defined.

(** C6.  [get_last_three_tags] returns the empty list, raising nothing, when
    the listing of tagged images holds no image (a repository without images
    or with untagged images only, which the TAGGED filter leaves out), and
    also when the images listed carry no tag at all; an exception of the SDK
    during the listing is caught, logged as an error and turned into the
    empty list.  In each case the loop of [main] logs that the repository
    has no recent tags, leaves the counters as they are and goes on with the
    remaining repositories. *)
Theorem C6_empty_or_failed_listing_gives_no_tags
  (World : Type) (env : Env World) (ecr : client) (repo : string) (w w' : World)
  (pages : list (page image)) (failure : option exn) :
  paginate_describe_images env ecr repo "TAGGED" w = ((pages, failure), w') ->
  (failure = None /\ images_of_pages pages [] = []) \/
  (failure = None /\ comparable (images_of_pages pages []) = true /\
   forall img, In img (images_of_pages pages []) -> tags_of img = []) \/
  (exists e, failure = Some e /\ is_boto_error e = true) ->
  exists t,
    get_last_three_tags env ecr repo w = (inr [], w', t) /\
    t = EvDescribeImages ecr repo "TAGGED" (pages, failure)
        :: match failure with
           | Some e => [EvLog ERROR (MsgListTagsFailed repo e)]
           | None => []
           end /\
    forall (args : Args) (rest : list string) (c : counters),
      process_repos env ecr args (repo :: rest) c w
      = (fst (fst (process_repos env ecr args rest c w')),
         snd (fst (process_repos env ecr args rest c w')),
         t ++ EvLog INFO (MsgNoRecentTags repo)
           :: snd (process_repos env ecr args rest c w')).
Proof.
  intros Hlist Hcase.
  assert (exists t, get_last_three_tags env ecr repo w = (inr [], w', t) /\
                    t = EvDescribeImages ecr repo "TAGGED" (pages, failure)
                        :: match failure with
                           | Some e => [EvLog ERROR (MsgListTagsFailed repo e)]
                           | None => []
                           end) as [t [Hget Ht]].
  { rewrite get_last_three_tags_eq, Hlist. unfold ranking_of. simpl.
    destruct Hcase as [[-> Hnil] | [[-> [Hcmp Hno]] | [e [-> He]]]].
    - rewrite Hnil. eexists. split; reflexivity.
    - destruct (sort_images_total _ Hcmp) as [sorted Hsort].
      rewrite (rank_images_sorted _ _ Hsort), walk_images_untagged.
      + eexists. split; reflexivity.
      + intros img Hi. apply Hno.
        apply (Permutation_in _ (Permutation_sym (sort_images_perm _ _ Hsort))).
        assumption.
    - rewrite He. eexists. split; reflexivity. }
  exists t. repeat split; try assumption.
  intros args rest c. now apply process_repos_skip.
Qed.

(** Two repositories whose listings fail: both are skipped. *)
Lemma C6_failed_listing_witness :
  process_repos no_images_env (DefaultClient "us-east-1") (sample_args true)
    ["github/a"; "github/c"] (Counters 0 0 0 0) tt
  = (inr (Counters 0 0 0 0), tt,
     [EvDescribeImages (DefaultClient "us-east-1") "github/a" "TAGGED" ([], Some ClientError);
      EvLog ERROR (MsgListTagsFailed "github/a" ClientError);
      EvLog INFO (MsgNoRecentTags "github/a");
      EvDescribeImages (DefaultClient "us-east-1") "github/c" "TAGGED" ([], Some ClientError);
      EvLog ERROR (MsgListTagsFailed "github/c" ClientError);
      EvLog INFO (MsgNoRecentTags "github/c")]).
Proof.
  destruct (C6_empty_or_failed_listing_gives_no_tags unit no_images_env
              (DefaultClient "us-east-1") "github/a" tt tt [] (Some ClientError)
              eq_refl
              (or_intror (or_intror (ex_intro _ ClientError (conj eq_refl eq_refl)))))
    as (t & _ & Ht & Hloop).
  rewrite Hloop, Ht. reflexivity.
Defined.

(** ** Repository discovery *)

(** C4.  When the listing of repositories succeeds, whatever its division
    into pages, [get_repositories_with_prefix] returns the names of all
    pages that start with the prefix, in the order of the listing and
    nothing else: a name is returned exactly when it is listed and is the
    prefix followed by some rest, character for character.  When no name
    matches, the empty list is returned and nothing is raised. *)
Theorem C4_discovery_returns_the_names_with_the_prefix
  (World : Type) (env : Env World) (ecr : client) (prefix : string)
  (w w' : World) (pages : list (page repository)) :
  paginate_describe_repositories env ecr w = ((pages, None), w') ->
  exists found : list string,
    get_repositories_with_prefix env ecr prefix w
    = (inr found, w',
       [EvDescribeRepositories ecr (pages, None);
        EvLog INFO (MsgDiscovered (length found) prefix);
        EvLog DEBUG (MsgRepositories found)]) /\
    found = filter (fun n => startswith n prefix)
              (map name_of (concat (map page_get pages))) /\
    (forall n, In n found <->
               In n (map name_of (concat (map page_get pages))) /\
               exists rest, n = (prefix ++ rest)%string) /\
    ((forall n, In n (map name_of (concat (map page_get pages))) ->
                ~ exists rest, n = (prefix ++ rest)%string) ->
     found = []).
Proof.
  intros Hlist.
  exists (matching_in_pages prefix pages []).
  split.
  { unfold get_repositories_with_prefix, bind, describe_repositories, log, ret.
    rewrite Hlist. reflexivity. }
  rewrite matching_in_pages_filter. simpl.
  split; [reflexivity |].
  split.
  - intros n. rewrite filter_In, startswith_spec. reflexivity.
  - intros Hnone.
    induction (map name_of (concat (map page_get pages))) as [| n l IH];
      [reflexivity |].
    simpl. destruct (startswith n prefix) eqn:E.
    + exfalso. apply (Hnone n); [now left | now apply startswith_spec].
    + apply IH. intros m Hm. apply Hnone. now right.
Qed.

(** The scenario of the specification: two of three names match, over two pages. *)
Lemma C4_discovery_witness :
  get_repositories_with_prefix sample_env (DefaultClient "us-east-1") "github/" tt
  = (inr ["github/a"; "github/c"], tt,
     [EvDescribeRepositories (DefaultClient "us-east-1") sample_repos;
      EvLog INFO (MsgDiscovered 2 "github/");
      EvLog DEBUG (MsgRepositories ["github/a"; "github/c"])]).
Proof.
  destruct (C4_discovery_returns_the_names_with_the_prefix unit sample_env
              (DefaultClient "us-east-1") "github/" tt tt (fst sample_repos) eq_refl)
    as (found & Hget & Hfound & _).
  rewrite Hget, Hfound. reflexivity.
Defined.

(** ** The refresh worker *)

Lemma string_append_assoc (a b c : string) :
  ((a ++ b) ++ c = a ++ (b ++ c))%string.
Proof.
  induction a as [| x a IH]; simpl; [reflexivity | now rewrite IH].
Qed.

Lemma image_uri_registry_host (account_id region repo_name tag : string) :
  image_uri account_id region repo_name tag
  = (registry_host account_id region ++ "/" ++ repo_name ++ ":" ++ tag)%string.
Proof.
  unfold image_uri, registry_host.
  rewrite !string_append_assoc. reflexivity.
Qed.

(** C2, as the code has it.  Without dry-run, [process_tag] runs pull,
    delete and push in this order and each step only after the one before
    succeeded.  A pull that exits non-zero ([CalledProcessError]) gives
    (False, "pull-failed") and is the only external call made; a deletion
    that raises an exception of the SDK after a successful pull gives
    (False, "delete-failed") and no push is made; a push that exits non-zero
    gives (False, "push-failed"); and when the three calls succeed the
    result is (True, "ok").  A step that fails with an exception of another
    class gets no reason code: the exception leaves the function, and again
    no later step is attempted. *)
Theorem C2_live_refresh_is_gated_with_codes_for_handled_failures
  (World : Type) (env : Env World) (ecr : client)
  (repo tag account_id region : string) (w : World) :
  let uri := image_uri account_id region repo tag in
  let pull := ["docker"; "pull"; uri] in
  let push := ["docker"; "push"; uri] in
  (forall w1,
      run_command env pull None w = (inl CalledProcessError, w1) ->
      exists t,
        process_tag env ecr repo tag account_id region false w
        = (inr (false, "pull-failed"), w1, t) /\
        external_calls t = [EvRun pull None (inl CalledProcessError)]) /\
  (forall out w1 e w2,
      run_command env pull None w = (inr out, w1) ->
      batch_delete_image env ecr repo tag w1 = (inl e, w2) ->
      is_boto_error e = true ->
      exists t,
        process_tag env ecr repo tag account_id region false w
        = (inr (false, "delete-failed"), w2, t) /\
        external_calls t
        = [EvRun pull None (inr out); EvBatchDeleteImage ecr repo tag (inl e)]) /\
  (forall out w1 w2 w3,
      run_command env pull None w = (inr out, w1) ->
      batch_delete_image env ecr repo tag w1 = (inr tt, w2) ->
      run_command env push None w2 = (inl CalledProcessError, w3) ->
      exists t,
        process_tag env ecr repo tag account_id region false w
        = (inr (false, "push-failed"), w3, t) /\
        external_calls t
        = [EvRun pull None (inr out); EvBatchDeleteImage ecr repo tag (inr tt);
           EvRun push None (inl CalledProcessError)]) /\
  (forall out w1 w2 out' w3,
      run_command env pull None w = (inr out, w1) ->
      batch_delete_image env ecr repo tag w1 = (inr tt, w2) ->
      run_command env push None w2 = (inr out', w3) ->
      exists t,
        process_tag env ecr repo tag account_id region false w
        = (inr (true, "ok"), w3, t) /\
        external_calls t
        = [EvRun pull None (inr out); EvBatchDeleteImage ecr repo tag (inr tt);
           EvRun push None (inr out')]) /\
  (forall e w1,
      run_command env pull None w = (inl e, w1) ->
      is_called_process_error e = false ->
      exists t,
        process_tag env ecr repo tag account_id region false w = (inl e, w1, t) /\
        external_calls t = [EvRun pull None (inl e)]) /\
  (forall out w1 e w2,
      run_command env pull None w = (inr out, w1) ->
      batch_delete_image env ecr repo tag w1 = (inl e, w2) ->
      is_boto_error e = false ->
      exists t,
        process_tag env ecr repo tag account_id region false w = (inl e, w2, t) /\
        external_calls t
        = [EvRun pull None (inr out); EvBatchDeleteImage ecr repo tag (inl e)]) /\
  (forall out w1 w2 e w3,
      run_command env pull None w = (inr out, w1) ->
      batch_delete_image env ecr repo tag w1 = (inr tt, w2) ->
      run_command env push None w2 = (inl e, w3) ->
      is_called_process_error e = false ->
      exists t,
        process_tag env ecr repo tag account_id region false w = (inl e, w3, t) /\
        external_calls t
        = [EvRun pull None (inr out); EvBatchDeleteImage ecr repo tag (inr tt);
           EvRun push None (inl e)]).
Proof.
  intros uri pull push. subst uri pull push.
  unfold process_tag, bind, try_except, log, ret, subprocess_run, delete_image_tag.
  split; [| split; [| split; [| split; [| split; [| split]]]]].
  - intros w1 H1. rewrite H1. simpl. eexists. split; reflexivity.
  - intros out w1 e w2 H1 H2 He. rewrite H1. simpl. rewrite H2. simpl. rewrite He.
    eexists. split; reflexivity.
  - intros out w1 w2 w3 H1 H2 H3. rewrite H1. simpl. rewrite H2. simpl.
    rewrite H3. simpl. eexists. split; reflexivity.
  - intros out w1 w2 out' w3 H1 H2 H3. rewrite H1. simpl. rewrite H2. simpl.
    rewrite H3. simpl. eexists. split; reflexivity.
  - intros e w1 H1 He. rewrite H1. simpl. rewrite He.
    eexists. split; reflexivity.
  - intros out w1 e w2 H1 H2 He. rewrite H1. simpl. rewrite H2. simpl. rewrite He.
    eexists. split; reflexivity.
  - intros out w1 w2 e w3 H1 H2 H3 He. rewrite H1. simpl. rewrite H2. simpl.
    rewrite H3. simpl. rewrite He. eexists. split; reflexivity.
Qed.

(** One environment for each of the four outcomes with a result, and one in
    which the pull cannot be started. *)
Lemma C2_live_refresh_witness :
  fst (fst (process_tag failing_host_env (DefaultClient "us-east-1")
              "github/a" "v3" "123456789012" "us-east-1" false tt))
  = inr (false, "pull-failed") /\
  fst (fst (process_tag failing_delete_env (DefaultClient "us-east-1")
              "github/a" "v3" "123456789012" "us-east-1" false tt))
  = inr (false, "delete-failed") /\
  fst (fst (process_tag failing_push_env (DefaultClient "us-east-1")
              "github/a" "v3" "123456789012" "us-east-1" false tt))
  = inr (false, "push-failed") /\
  fst (fst (process_tag sample_env (DefaultClient "us-east-1")
              "github/a" "v3" "123456789012" "us-east-1" false tt))
  = inr (true, "ok") /\
  fst (fst (process_tag missing_tool_env (DefaultClient "us-east-1")
              "github/a" "v3" "123456789012" "us-east-1" false tt))
  = inl OSError.
Proof.
  split; [| split; [| split; [| split]]].
  - destruct (proj1 (C2_live_refresh_is_gated_with_codes_for_handled_failures unit
                       failing_host_env (DefaultClient "us-east-1") "github/a" "v3"
                       "123456789012" "us-east-1" tt) tt eq_refl)
      as (t & H & _).
    now rewrite H.
  - destruct (proj1 (proj2 (C2_live_refresh_is_gated_with_codes_for_handled_failures unit
                              failing_delete_env (DefaultClient "us-east-1")
                              "github/a" "v3" "123456789012" "us-east-1" tt))
                "" tt ClientError tt eq_refl eq_refl eq_refl)
      as (t & H & _).
    now rewrite H.
  - destruct (proj1 (proj2 (proj2
                (C2_live_refresh_is_gated_with_codes_for_handled_failures unit
                   failing_push_env (DefaultClient "us-east-1")
                   "github/a" "v3" "123456789012" "us-east-1" tt)))
                "" tt tt tt eq_refl eq_refl eq_refl)
      as (t & H & _).
    now rewrite H.
  - destruct (proj1 (proj2 (proj2 (proj2
                (C2_live_refresh_is_gated_with_codes_for_handled_failures unit
                   sample_env (DefaultClient "us-east-1")
                   "github/a" "v3" "123456789012" "us-east-1" tt))))
                "" tt tt "" tt eq_refl eq_refl eq_refl)
      as (t & H & _).
    now rewrite H.
  - destruct (proj1 (proj2 (proj2 (proj2 (proj2
                (C2_live_refresh_is_gated_with_codes_for_handled_failures unit
                   missing_tool_env (DefaultClient "us-east-1")
                   "github/a" "v3" "123456789012" "us-east-1" tt)))))
                OSError tt eq_refl eq_refl)
      as (t & H & _).
    now rewrite H.
Defined.

(** A pull that fails need not give "pull-failed": when the container tool
    cannot be started, the pull is attempted and fails, and [process_tag]
    raises instead of returning a reason code. *)
Lemma C2_pull_failure_counterexample :
  process_tag missing_tool_env (DefaultClient "us-east-1")
    "github/a" "v3" "123456789012" "us-east-1" false tt
  = (inl OSError, tt,
     [EvLog INFO (MsgPulling "123456789012.dkr.ecr.us-east-1.amazonaws.com/github/a:v3");
      EvRun ["docker"; "pull"; "123456789012.dkr.ecr.us-east-1.amazonaws.com/github/a:v3"]
        None (inl OSError)]) /\
  fst (fst (process_tag missing_tool_env (DefaultClient "us-east-1")
              "github/a" "v3" "123456789012" "us-east-1" false tt))
  <> inr (false, "pull-failed").
Proof. split; [reflexivity | discriminate]. Qed.

(** ** Transcripts of the parts of the script *)

Section Transcripts.

Context {World : Type} (env : Env World).

Lemma bind_run {A B : Type} (m : M World A) (f : A -> M World B) (w : World) :
  bind m f w
  = match m w with
    | (inl e, w1, t1) => (inl e, w1, t1)
    | (inr a, w1, t1) =>
        (fst (fst (f a w1)), snd (fst (f a w1)), t1 ++ snd (f a w1))
    end.
Proof.
  unfold bind. destruct (m w) as [[[e | a] w1] t1]; [reflexivity |].
  destruct (f a w1) as [[r w2] t2]. reflexivity.
Qed.

Lemma process_tag_dry_run (ecr : client) (repo tag account_id region : string)
  (w : World) :
  process_tag env ecr repo tag account_id region true w
  = (inr (true, "dry-run"), w,
     [EvLog INFO (MsgDryRunWould (image_uri account_id region repo tag))]).
Proof. reflexivity. Qed.

Ltac answer_oracles :=
  repeat match goal with
    | |- context [run_command ?e ?a ?i ?w] =>
        destruct (run_command e a i w) as [[[] | ?] ?]; simpl
    | |- context [batch_delete_image ?e ?c ?r ?t ?w] =>
        destruct (batch_delete_image e c r t w) as [[[] | []] ?]; simpl
    end.

Lemma docker_login_events (account_id region : string) (profile : option string)
  (w : World) :
  Forall (fun ev => login_event ev = true)
    (snd (docker_login env account_id region profile w)).
Proof.
  unfold docker_login, bind, log, subprocess_run, ret.
  destruct (truthy profile); simpl; answer_oracles; repeat constructor.
Qed.

Lemma discovery_events (ecr : client) (prefix : string) (w : World) :
  Forall (fun ev => discovery_event ev = true)
    (snd (get_repositories_with_prefix env ecr prefix w)).
Proof.
  unfold get_repositories_with_prefix, bind, log, describe_repositories, ret.
  destruct (paginate_describe_repositories env ecr w) as [[pages [e |]] w']; simpl;
    repeat constructor.
Qed.

Lemma process_tag_events (ecr : client) (repo tag account_id region : string)
  (dry : bool) (w : World) :
  Forall (fun ev => worker_event dry ecr repo tag
                      (image_uri account_id region repo tag) ev = true)
    (snd (process_tag env ecr repo tag account_id region dry w)).
Proof.
  unfold process_tag, bind, try_except, log, subprocess_run, delete_image_tag, ret.
  generalize (image_uri account_id region repo tag). intros uri.
  destruct dry; simpl; answer_oracles;
    repeat (constructor; simpl; rewrite ?String.eqb_refl; try reflexivity).
Qed.

Lemma worker_event_loop_event (dry : bool) (ecr : client) (repo tag uri : string)
  (ev : event) :
  worker_event dry ecr repo tag uri ev = true -> loop_event dry ev = true.
Proof.
  destruct ev as [lvl m | argv input res | c res | c r ts res | c r t res]; simpl;
    try discriminate.
  - destruct lvl, m; simpl; try discriminate; intros H;
      apply andb_true_iff in H; now destruct H.
  - destruct argv as [| cmd [| sub [| u [| ? ?]]]]; try discriminate.
    destruct input; try discriminate.
    intros H. repeat (apply andb_true_iff in H; destruct H as [H ?]).
    unfold is_pull_or_push.
    repeat match goal with
           | Hx : _ = true |- _ => rewrite ?Hx; clear Hx
           end.
    reflexivity.
  - intros H. repeat (apply andb_true_iff in H; destruct H as [H ?]). assumption.
Qed.

Lemma process_tag_loop_events (ecr : client) (repo tag account_id region : string)
  (dry : bool) (w : World) :
  Forall (fun ev => loop_event dry ev = true)
    (snd (process_tag env ecr repo tag account_id region dry w)).
Proof.
  eapply Forall_impl; [| apply process_tag_events].
  intros ev. apply worker_event_loop_event.
Qed.

(** In dry-run mode every tag of a repository is counted as a success. *)
Lemma process_tags_dry_run (ecr : client) (args : Args) (repo : string)
  (tags : list string) (c : counters) (w : World) :
  dry_run args = true ->
  process_tags env ecr args repo tags c w
  = (inr (Counters (total_repos c) (total_tags c + length tags)
            (successes c + length tags) (failures c)),
     w,
     map (fun tag => EvLog INFO
                       (MsgDryRunWould (image_uri (account_id args) (region args) repo tag)))
       tags).
Proof.
  intros Hdry. revert c. induction tags as [| tag rest IH]; intros c.
  - simpl. unfold ret. rewrite !Nat.add_0_r. now destruct c.
  - simpl. rewrite Hdry. rewrite bind_run, process_tag_dry_run.
    rewrite bind_run. unfold ret at 1. simpl. rewrite IH. simpl.
    replace (total_tags c + 1 + length rest) with (total_tags c + S (length rest))
      by lia.
    replace (successes c + 1 + length rest) with (successes c + S (length rest))
      by lia.
    reflexivity.
Qed.

(** The loop over the tags of a repository: events of the loop only, no
    listing of images, one more tag attempted per tag, each one a success or
    a failure. *)
Lemma process_tags_run (ecr : client) (args : Args) (repo : string)
  (tags : list string) (c : counters) (w : World) :
  Forall (fun ev => loop_event (dry_run args) ev = true)
    (snd (process_tags env ecr args repo tags c w)) /\
  forall c', fst (fst (process_tags env ecr args repo tags c w)) = inr c' ->
    total_repos c' = total_repos c /\
    total_tags c' = total_tags c + length tags /\
    successes c' + failures c' = successes c + failures c + length tags.
Proof.
  destruct (dry_run args) eqn:Hdry.
  { rewrite process_tags_dry_run by assumption. simpl. split.
    - apply Forall_forall. intros ev Hev. apply in_map_iff in Hev.
      destruct Hev as [tag [<- _]]. reflexivity.
    - intros c' H. injection H as <-. simpl. lia. }
  revert c w. induction tags as [| tag rest IH]; intros c w.
  - simpl. split; [constructor |]. intros c' H. injection H as <-. lia.
  - simpl. rewrite Hdry. rewrite bind_run.
    pose proof (process_tag_loop_events ecr repo tag (account_id args) (region args)
                  false w) as Hev.
    destruct (process_tag env ecr repo tag (account_id args) (region args) false w)
      as [[[e | [ok reason]] w1] t1]; simpl in Hev.
    + simpl. split; [assumption | discriminate].
    + rewrite bind_run. destruct ok; unfold ret at 1; simpl.
      * match goal with
        | |- context [process_tags env ecr args repo rest ?c1 w1] =>
            destruct (IH c1 w1) as [Ht Hc]
        end.
        split; [apply Forall_app; split; assumption |].
        intros c' H. apply Hc in H. simpl in H. lia.
      * match goal with
        | |- context [process_tags env ecr args repo rest ?c1 w1] =>
            destruct (IH c1 w1) as [Ht Hc]
        end.
        split.
        -- apply Forall_app. split; [assumption |]. now constructor.
        -- intros c' H. apply Hc in H. simpl in H. lia.
Qed.

End Transcripts.

Section Loop.

Context {World : Type} (env : Env World).

Lemma image_listings_app (t1 t2 : list event) :
  image_listings (t1 ++ t2) = image_listings t1 ++ image_listings t2.
Proof. apply flat_map_app. Qed.

Lemma rankings_app (t1 t2 : list event) :
  rankings (t1 ++ t2) = rankings t1 ++ rankings t2.
Proof. unfold rankings. now rewrite image_listings_app, map_app. Qed.

Lemma image_listings_none (t : list event) :
  Forall (fun ev => match ev with
                    | EvDescribeImages _ _ _ _ => False
                    | _ => True
                    end) t ->
  image_listings t = [].
Proof.
  induction 1 as [| ev t Hev _ IH]; [reflexivity |].
  destruct ev; try contradiction; exact IH.
Qed.

Lemma process_tag_no_listing (ecr : client) (repo tag account_id region : string)
  (dry : bool) (w : World) :
  image_listings (snd (process_tag env ecr repo tag account_id region dry w)) = [].
Proof.
  apply image_listings_none.
  eapply Forall_impl; [| apply process_tag_events].
  intros ev. destruct ev; try exact (fun _ => I). discriminate.
Qed.

Lemma process_tags_no_listing (ecr : client) (args : Args) (repo : string)
  (tags : list string) (c : counters) (w : World) :
  image_listings (snd (process_tags env ecr args repo tags c w)) = [].
Proof.
  revert c w. induction tags as [| tag rest IH]; intros c w; [reflexivity |].
  simpl. rewrite bind_run.
  pose proof (process_tag_no_listing ecr repo tag (account_id args) (region args)
                (dry_run args) w) as Hno.
  destruct (process_tag env ecr repo tag (account_id args) (region args)
              (dry_run args) w) as [[[e | [ok reason]] w1] t1]; simpl in Hno.
  - assumption.
  - rewrite bind_run. destruct ok; simpl;
      rewrite image_listings_app, Hno; simpl; apply IH.
Qed.

#[local] Arguments process_tags : simpl never.

(** The loop over the repositories: one listing of images per repository,
    in order, and counters that follow the rankings of these listings. *)
Lemma process_repos_run (ecr : client) (args : Args) (repos : list string)
  (c : counters) (w : World) :
  Forall (fun ev => loop_event (dry_run args) ev = true)
    (snd (process_repos env ecr args repos c w)) /\
  forall c', fst (fst (process_repos env ecr args repos c w)) = inr c' ->
    let t := snd (process_repos env ecr args repos c w) in
    map fst (image_listings t) = repos /\
    total_repos c' = total_repos c + length (filter nonempty (rankings t)) /\
    total_tags c' = total_tags c + list_sum (map (@length string) (rankings t)) /\
    successes c' + failures c'
    = successes c + failures c + list_sum (map (@length string) (rankings t)) /\
    Forall (fun tags => length tags <= 3) (rankings t) /\
    (dry_run args = true -> failures c' = failures c).
Proof.
  revert c w. induction repos as [| repo rest IH]; intros c w.
  { simpl. split; [constructor |]. intros c' H. injection H as <-.
    repeat split; try lia. constructor. }
  simpl. rewrite bind_run, get_last_three_tags_eq.
  destruct (paginate_describe_images env ecr repo "TAGGED" w) as [res w1]. simpl.
  assert (Forall (fun ev => loop_event (dry_run args) ev = true)
            (EvDescribeImages ecr repo "TAGGED" res
             :: match snd res with
                | Some e =>
                    if is_boto_error e then [EvLog ERROR (MsgListTagsFailed repo e)] else []
                | None => []
                end)) as Hlist.
  { constructor; [reflexivity |].
    destruct (snd res) as [e |]; [| constructor].
    destruct (is_boto_error e); repeat constructor. }
  assert (image_listings
            (match snd res with
             | Some e =>
                 if is_boto_error e then [EvLog ERROR (MsgListTagsFailed repo e)] else []
             | None => []
             end) = []) as Hnone.
  { destruct (snd res) as [e |]; [| reflexivity]. now destruct (is_boto_error e). }
  destruct (ranking_of res) as [e | [| tag0 tags0]] eqn:Hrank.
  - split; [assumption | discriminate].
  - rewrite bind_run. unfold log at 1. simpl.
    destruct (IH c w1) as [Hev Hc]. split.
    + constructor; [reflexivity |]. apply Forall_app. split.
      * now apply Forall_inv_tail in Hlist.
      * constructor; [reflexivity | assumption].
    + intros c' H. specialize (Hc c' H). simpl in Hc.
      destruct Hc as (H1 & H2 & H3 & H4 & H5 & H6).
      cbv zeta. unfold rankings in *.
      simpl. rewrite image_listings_app, Hnone. simpl. rewrite Hrank. simpl.
      split; [now f_equal |].
      split; [assumption |]. split; [assumption |]. split; [assumption |].
      split; [constructor; [simpl; lia | assumption] | assumption].
  - rewrite bind_run. unfold log at 1. simpl. rewrite bind_run.
    set (c1 := Counters (total_repos c + 1) (total_tags c) (successes c) (failures c)).
    destruct (process_tags_run env ecr args repo (tag0 :: tags0) c1 w1) as [Hev1 Hc1].
    pose proof (process_tags_no_listing ecr args repo (tag0 :: tags0) c1 w1) as Hno1.
    pose proof (process_tags_dry_run env ecr args repo (tag0 :: tags0) c1 w1) as Hdry1.
    destruct (process_tags env ecr args repo (tag0 :: tags0) c1 w1)
      as [[[e | c2] w2] t2].
    + simpl in *. split; [| discriminate].
      constructor; [reflexivity |]. apply Forall_app. split.
      * now apply Forall_inv_tail in Hlist.
      * constructor; [reflexivity | assumption].
    + simpl in Hev1, Hno1. specialize (Hc1 c2 eq_refl). simpl in Hc1.
      destruct (IH c2 w2) as [Hev Hc]. cbn [fst snd]. split.
      * constructor; [reflexivity |]. apply Forall_app. split.
        -- now apply Forall_inv_tail in Hlist.
        -- constructor; [reflexivity |]. apply Forall_app. now split.
      * intros c' H. specialize (Hc c' H). simpl in Hc.
        destruct Hc as (H1 & H2 & H3 & H4 & H5 & H6).
        cbv zeta. unfold rankings in *.
        simpl. rewrite image_listings_app, Hnone. simpl.
        rewrite image_listings_app, Hno1. simpl. rewrite Hrank. simpl.
        assert (length tags0 <= 2) as Hlen.
        { unfold ranking_of in Hrank. destruct (snd res) as [e |].
          - destruct (is_boto_error e); discriminate.
          - apply rank_images_length in Hrank. simpl in Hrank. lia. }
        split; [now f_equal |].
        split; [lia |]. split; [lia |]. split; [lia |].
        split; [constructor; [simpl; lia | assumption] |].
        intros Hd. specialize (H6 Hd). specialize (Hdry1 Hd).
        injection Hdry1 as Hc2 _ _. subst c2. simpl in H6. assumption.
Qed.

End Loop.

(** ** [main] as a whole *)

Section Main.

Context {World : Type} (env : Env World).

(** The run of [main] in one equation: the login unless in dry-run mode,
    discovery, the loop, the summary. *)
Lemma main_run (args : Args) (w : World) :
  main env args w
  = match (if dry_run args then (inr tt, w, [])
           else docker_login env (account_id args) (region args) (profile args) w) with
    | (inl e, w0, t0) =>
        if is_called_process_error e
        then (inr tt, w0, t0 ++ [EvLog CRITICAL (MsgLoginFailed e)])
        else (inl e, w0, t0)
    | (inr _, w0, t0) =>
        match get_repositories_with_prefix env
                (get_ecr_client (region args) (profile args)) (prefix args) w0 with
        | (inl e, w1, t1) => (inl e, w1, t0 ++ t1)
        | (inr repos, w1, t1) =>
            match process_repos env (get_ecr_client (region args) (profile args))
                    args repos (Counters 0 0 0 0) w1 with
            | (inl e, w2, t2) => (inl e, w2, t0 ++ t1 ++ t2)
            | (inr c, w2, t2) => (inr tt, w2, t0 ++ t1 ++ t2 ++ summary_lines args c)
            end
        end
    end.
Proof.
  unfold main, summary_lines, bind, try_except, ret, log.
  destruct (dry_run args) eqn:Hdry; simpl.
  - destruct (get_repositories_with_prefix env _ (prefix args) w)
      as [[[e | repos] w1] t1]; [reflexivity |].
    destruct (process_repos env _ args repos (Counters 0 0 0 0) w1)
      as [[[e | c] w2] t2]; reflexivity.
  - destruct (docker_login env (account_id args) (region args) (profile args) w)
      as [[[e | []] w0] t0].
    + destruct (is_called_process_error e); [| reflexivity].
      simpl. now rewrite app_nil_r.
    + simpl. rewrite app_nil_r.
      destruct (get_repositories_with_prefix env _ (prefix args) w0)
        as [[[e | repos] w1] t1]; [reflexivity |].
      destruct (process_repos env _ args repos (Counters 0 0 0 0) w1)
        as [[[e | c] w2] t2]; reflexivity.
Qed.

Lemma login_event_facts (ev : event) :
  login_event ev = true ->
  is_repository_work ev = false /\ is_summary_line ev = false /\
  starts_worker ev = false /\
  match ev with
  | EvDescribeImages _ _ _ _ | EvDescribeRepositories _ _ => False
  | _ => True
  end.
Proof.
  destruct ev as [lvl m | argv input res | c res | c r ts res | c r t res]; simpl;
    try discriminate.
  - destruct lvl, m; try discriminate; intros _; repeat split.
  - intros H. apply negb_true_iff in H. now rewrite H.
Qed.

Lemma discovery_event_facts (ev : event) :
  discovery_event ev = true ->
  is_command_or_delete ev = false /\ is_summary_line ev = false /\
  (forall lvl repo tag reason, ev <> EvLog lvl (MsgActionFailed repo tag reason)) /\
  match ev with
  | EvDescribeImages _ _ _ _ => False
  | _ => True
  end.
Proof.
  destruct ev as [lvl m | argv input res | c res | c r ts res | c r t res]; simpl;
    try discriminate.
  - destruct lvl, m; try discriminate; intros _; repeat split; discriminate.
  - intros _. repeat split. discriminate.
Qed.

Lemma loop_event_facts (dry : bool) (ev : event) :
  loop_event dry ev = true ->
  is_summary_line ev = false /\
  (dry = true -> is_command_or_delete ev = false) /\
  (dry = true ->
   forall lvl repo tag reason, ev <> EvLog lvl (MsgActionFailed repo tag reason)) /\
  match ev with
  | EvDescribeRepositories _ _ => False
  | _ => True
  end.
Proof.
  destruct ev as [lvl m | argv input res | c res | c r ts res | c r t res]; simpl;
    try discriminate.
  - destruct lvl, m; try discriminate; intros H; repeat split;
      try discriminate; intros ->; discriminate.
  - intros H. repeat split; try discriminate; intros ->; discriminate.
  - intros _. repeat split; discriminate.
  - intros H. repeat split; try discriminate; intros ->; discriminate.
Qed.

Lemma summary_lines_only (args : Args) (c : counters) :
  Forall (fun ev => is_summary_line ev = true) (summary_lines args c).
Proof.
  unfold summary_lines. destruct (dry_run args); repeat constructor.
Qed.

End Main.

(** ** Dry-run mode *)

(** C3.  In dry-run mode [process_tag] returns (True, "dry-run") for every
    tag, leaves the environment as it was and produces one log line and no
    external call.  A whole run in dry-run mode runs no command on the host
    (no login, pull or push) and deletes nothing in the registry, reports
    no failed action, and its summary shows as many successes as tags
    attempted and zero failures. *)
Theorem C3_dry_run_makes_no_refresh_call_and_counts_successes
  (World : Type) (env : Env World) :
  (forall (ecr : client) (repo tag account_id region : string) (w : World),
      process_tag env ecr repo tag account_id region true w
      = (inr (true, "dry-run"), w,
         [EvLog INFO (MsgDryRunWould (image_uri account_id region repo tag))])) /\
  (forall (args : Args) (w : World),
      dry_run args = true ->
      forall ev, In ev (snd (main env args w)) ->
        is_command_or_delete ev = false /\
        is_refresh_call ev = false /\
        (forall lvl repo tag reason, ev <> EvLog lvl (MsgActionFailed repo tag reason)) /\
        (forall lvl n s f, ev = EvLog lvl (MsgTagsAttempted n s f) -> s = n /\ f = 0)).
Proof.
  split; [intros; apply process_tag_dry_run |].
  intros args w Hdry.
  apply Forall_forall.
  assert (forall ev, is_command_or_delete ev = false -> is_refresh_call ev = false)
    as Hrefresh by (intros [] H; try reflexivity; discriminate).
  assert (forall t, Forall (fun ev => discovery_event ev = true) t ->
            Forall (fun ev =>
               is_command_or_delete ev = false /\ is_refresh_call ev = false /\
               (forall lvl repo tag reason,
                   ev <> EvLog lvl (MsgActionFailed repo tag reason)) /\
               (forall lvl n s f,
                   ev = EvLog lvl (MsgTagsAttempted n s f) -> s = n /\ f = 0)) t)
    as Hdisc.
  { intros t. apply Forall_impl. intros ev Hev.
    destruct (discovery_event_facts ev Hev) as (H1 & H2 & H3 & _).
    repeat split; auto; subst ev; discriminate. }
  assert (forall t, Forall (fun ev => loop_event true ev = true) t ->
            Forall (fun ev =>
               is_command_or_delete ev = false /\ is_refresh_call ev = false /\
               (forall lvl repo tag reason,
                   ev <> EvLog lvl (MsgActionFailed repo tag reason)) /\
               (forall lvl n s f,
                   ev = EvLog lvl (MsgTagsAttempted n s f) -> s = n /\ f = 0)) t)
    as Hloop.
  { intros t. apply Forall_impl. intros ev Hev.
    destruct (loop_event_facts true ev Hev) as (H1 & H2 & H3 & _).
    repeat split; auto; subst ev; discriminate. }
  rewrite main_run, Hdry.
  pose proof (discovery_events env (get_ecr_client (region args) (profile args))
                (prefix args) w) as H1.
  destruct (get_repositories_with_prefix env _ (prefix args) w)
    as [[[e | repos] w1] t1]; simpl in H1 |- *; [now apply Hdisc |].
  destruct (process_repos_run env (get_ecr_client (region args) (profile args))
              args repos (Counters 0 0 0 0) w1) as [H2 Hc].
  rewrite Hdry in H2.
  destruct (process_repos env _ args repos (Counters 0 0 0 0) w1)
    as [[[e | c] w2] t2]; simpl in H2, Hc |- *.
  - apply Forall_app. split; [now apply Hdisc | now apply Hloop].
  - apply Forall_app. split; [now apply Hdisc |].
    apply Forall_app. split; [now apply Hloop |].
    destruct (Hc c eq_refl) as (_ & _ & Htags & Hsum & _ & Hfail).
    specialize (Hfail Hdry). simpl in Htags, Hsum, Hfail.
    unfold summary_lines. rewrite Hdry.
    repeat (apply Forall_cons;
            [ split; [reflexivity | split; [reflexivity | split; [discriminate |]]];
              intros lvl n s f H; try discriminate;
              injection H as _ Hn Hs Hf; lia | ]).
    constructor.
Qed.

(** The scenario of the specification in dry-run mode: 3 attempted, 3 succeeded. *)
Lemma C3_dry_run_witness :
  In (EvLog INFO (MsgTagsAttempted 3 3 0)) (snd (main sample_env (sample_args true) tt)) /\
  (3 = 3 /\ 0 = 0).
Proof.
  assert (In (EvLog INFO (MsgTagsAttempted 3 3 0))
            (snd (main sample_env (sample_args true) tt))) as Hin.
  { vm_compute. do 12 right. now left. }
  split; [exact Hin |].
  exact (proj2 (proj2 (proj2 (proj2 (C3_dry_run_makes_no_refresh_call_and_counts_successes
                                        unit sample_env)
                                      (sample_args true) tt eq_refl _ Hin)))
           INFO 3 3 0 eq_refl).
Defined.

(** ** Authentication *)

(** C5.  Without dry-run, when [docker_login] raises, [main] ends right
    there: it logs the critical line and returns when the exception is a
    [CalledProcessError], and lets any other exception through.  Its
    transcript is that of the login, followed at most by the critical line:
    no discovery, no listing of images, no pull, deletion or push and no log
    line of the loop or of the worker occur, no repository and no tag is
    attempted, and no summary is written. *)
Theorem C5_login_failure_aborts_before_any_repository
  (World : Type) (env : Env World) (args : Args) (w w1 : World) (e : exn)
  (t1 : list event) :
  dry_run args = false ->
  docker_login env (account_id args) (region args) (profile args) w = (inl e, w1, t1) ->
  main env args w
  = (if is_called_process_error e then inr tt else inl e,
     w1,
     t1 ++ (if is_called_process_error e
            then [EvLog CRITICAL (MsgLoginFailed e)] else [])) /\
  (forall ev, In ev (snd (main env args w)) ->
              is_repository_work ev = false /\ is_summary_line ev = false) /\
  repositories_attempted (snd (main env args w)) = 0 /\
  tags_attempted (snd (main env args w)) = 0.
Proof.
  intros Hdry Hlogin.
  pose proof (docker_login_events env (account_id args) (region args) (profile args) w)
    as Hev.
  rewrite Hlogin in Hev. simpl in Hev.
  assert (main env args w
          = (if is_called_process_error e then inr tt else inl e, w1,
             t1 ++ (if is_called_process_error e
                    then [EvLog CRITICAL (MsgLoginFailed e)] else []))) as Hmain.
  { rewrite main_run, Hdry, Hlogin.
    destruct (is_called_process_error e); [reflexivity | now rewrite app_nil_r]. }
  split; [exact Hmain |].
  rewrite Hmain. simpl.
  assert (Forall (fun ev => login_event ev = true \/ exists x, ev = EvLog CRITICAL (MsgLoginFailed x))
            (t1 ++ (if is_called_process_error e
                    then [EvLog CRITICAL (MsgLoginFailed e)] else []))) as Hall.
  { apply Forall_app. split.
    - eapply Forall_impl; [| exact Hev]. intros ev H. now left.
    - destruct (is_called_process_error e); [| constructor].
      constructor; [right; now exists e | constructor]. }
  clear Hmain Hev Hlogin.
  induction Hall as [| ev t Hhd _ IH].
  - split; [intros ev0 [] | split; reflexivity].
  - destruct IH as (IH1 & IH2 & IH3).
    assert (is_repository_work ev = false /\ is_summary_line ev = false /\
            starts_worker ev = false /\
            match ev with
            | EvDescribeImages _ _ _ _ | EvDescribeRepositories _ _ => False
            | _ => True
            end) as (F1 & F2 & F3 & F4).
    { destruct Hhd as [Hl | [x ->]]; [now apply login_event_facts | repeat split]. }
    split; [| split].
    + intros ev' [<- | Hin]; [now split | now apply IH1].
    + unfold repositories_attempted in *. simpl.
      destruct ev; try contradiction; exact IH2.
    + unfold tags_attempted in *. simpl. now rewrite F3.
Qed.

(** The password command exits non-zero: three events and nothing more. *)
Lemma C5_login_failure_witness :
  main failing_host_env (sample_args false) tt
  = (inr tt, tt,
     [EvLog DEBUG (MsgRunning "aws ecr get-login-password --region us-east-1");
      EvRun ["aws"; "ecr"; "get-login-password"; "--region"; "us-east-1"] None
        (inl CalledProcessError);
      EvLog CRITICAL (MsgLoginFailed CalledProcessError)]).
Proof.
  exact (proj1 (C5_login_failure_aborts_before_any_repository unit failing_host_env
                  (sample_args false) tt tt CalledProcessError
                  [EvLog DEBUG (MsgRunning "aws ecr get-login-password --region us-east-1");
                   EvRun ["aws"; "ecr"; "get-login-password"; "--region"; "us-east-1"]
                     None (inl CalledProcessError)]
                  eq_refl eq_refl)).
Defined.

(** ** The image reference *)

(** C8.  The image reference of the worker is the account id, ".dkr.ecr.",
    the region, ".amazonaws.com/", the repository name, ":" and the tag
    name, in this order; it is the registry host of the login followed by
    "/", the repository name, ":" and the tag name.  It depends on nothing
    else: whatever the environment answers, every command the worker runs is
    a pull or a push of exactly this reference, and in dry-run mode the only
    log line names it. *)
Theorem C8_image_reference_follows_the_template
  (World : Type) (env : Env World) (ecr : client)
  (repo_name tag_name account_id region : string) (dry : bool) (w : World) :
  let uri := (account_id ++ ".dkr.ecr." ++ region ++ ".amazonaws.com/"
                ++ repo_name ++ ":" ++ tag_name)%string in
  image_uri account_id region repo_name tag_name = uri /\
  uri = (registry_host account_id region ++ "/" ++ repo_name ++ ":" ++ tag_name)%string /\
  (forall argv input res,
      In (EvRun argv input res)
         (snd (process_tag env ecr repo_name tag_name account_id region dry w)) ->
      argv = ["docker"; "pull"; uri] \/ argv = ["docker"; "push"; uri]) /\
  (forall lvl u,
      In (EvLog lvl (MsgDryRunWould u))
         (snd (process_tag env ecr repo_name tag_name account_id region dry w)) ->
      u = uri).
Proof.
  intros uri. split; [reflexivity |].
  split; [apply image_uri_registry_host |].
  pose proof (process_tag_events env ecr repo_name tag_name account_id region dry w)
    as Hev.
  rewrite Forall_forall in Hev.
  split.
  - intros argv input res Hin. specialize (Hev _ Hin). simpl in Hev.
    destruct argv as [| cmd [| sub [| u [| ? ?]]]]; try discriminate.
    destruct input; try discriminate.
    repeat (apply andb_true_iff in Hev; destruct Hev as [Hev ?]).
    repeat match goal with
           | H : (_ =? _)%string = true |- _ => apply String.eqb_eq in H
           | H : (_ || _)%bool = true |- _ => apply orb_true_iff in H
           end.
    subst cmd u.
    match goal with
    | H : _ \/ _ |- _ => destruct H as [H | H]; apply String.eqb_eq in H; subst sub
    end; [now left | now right].
  - intros lvl u Hin. specialize (Hev _ Hin). simpl in Hev.
    destruct lvl; try discriminate.
    apply andb_true_iff in Hev. destruct Hev as [_ Hev].
    now apply String.eqb_eq in Hev.
Qed.

(** The pull of github/a:v3 in the sample account and region. *)
Lemma C8_image_reference_witness :
  In (EvRun ["docker"; "pull"; "123456789012.dkr.ecr.us-east-1.amazonaws.com/github/a:v3"]
        None (inr ""))
     (snd (process_tag sample_env (DefaultClient "us-east-1") "github/a" "v3"
             "123456789012" "us-east-1" false tt)) /\
  (["docker"; "pull"; "123456789012.dkr.ecr.us-east-1.amazonaws.com/github/a:v3"]
   = ["docker"; "pull"; "123456789012.dkr.ecr.us-east-1.amazonaws.com/github/a:v3"] \/
   ["docker"; "pull"; "123456789012.dkr.ecr.us-east-1.amazonaws.com/github/a:v3"]
   = ["docker"; "push"; "123456789012.dkr.ecr.us-east-1.amazonaws.com/github/a:v3"]).
Proof.
  assert (In (EvRun ["docker"; "pull";
                     "123456789012.dkr.ecr.us-east-1.amazonaws.com/github/a:v3"]
                None (inr ""))
             (snd (process_tag sample_env (DefaultClient "us-east-1") "github/a" "v3"
                     "123456789012" "us-east-1" false tt))) as Hin.
  { vm_compute. right. now left. }
  split; [exact Hin |].
  exact (proj1 (proj2 (proj2 (C8_image_reference_follows_the_template unit sample_env
                                (DefaultClient "us-east-1") "github/a" "v3"
                                "123456789012" "us-east-1" false tt)))
           _ _ _ Hin).
Defined.

(** ** The summary and the exit status *)

Section Summary.

Context {World : Type} (env : Env World).

Lemma run_script_status (args : Args) (w : World) :
  fst (run_script env args w) = exit_status (fst (fst (main env args w))).
Proof. unfold run_script. now destruct (main env args w) as [[r w'] t]. Qed.

Lemma run_script_transcript (args : Args) (w : World) :
  snd (run_script env args w) = snd (main env args w).
Proof. unfold run_script. now destruct (main env args w) as [[r w'] t]. Qed.

Lemma discovered_app (prefix : string) (t1 t2 : list event) :
  discovered prefix (t1 ++ t2) = discovered prefix t1 ++ discovered prefix t2.
Proof. apply flat_map_app. Qed.

Lemma discovered_none (prefix : string) (t : list event) :
  Forall (fun ev => match ev with
                    | EvDescribeRepositories _ _ => False
                    | _ => True
                    end) t ->
  discovered prefix t = [].
Proof.
  induction 1 as [| ev t Hev _ IH]; [reflexivity |].
  destruct ev; try contradiction; exact IH.
Qed.

Lemma discovery_discovered (ecr : client) (prefix : string) (w w1 : World)
  (repos : list string) (t1 : list event) :
  get_repositories_with_prefix env ecr prefix w = (inr repos, w1, t1) ->
  discovered prefix t1 = repos /\ image_listings t1 = [].
Proof.
  unfold get_repositories_with_prefix, bind, describe_repositories, log, ret.
  destruct (paginate_describe_repositories env ecr w) as [[pages [e |]] w']; simpl;
    [discriminate |].
  intros H. injection H as <- _ <-. simpl. now rewrite app_nil_r.
Qed.

(** A summary line in the transcript of [main] means that the login (if
    any), discovery and the loop all returned and that [main] returned after
    writing the summary of the loop's counters, which holds all the summary
    lines of the transcript. *)
Lemma main_summary_inv (args : Args) (w : World) (ev : event) :
  In ev (snd (main env args w)) ->
  is_summary_line ev = true ->
  exists w0 t0 repos w1 t1 c w2 t2,
    get_repositories_with_prefix env (get_ecr_client (region args) (profile args))
      (prefix args) w0 = (inr repos, w1, t1) /\
    process_repos env (get_ecr_client (region args) (profile args)) args repos
      (Counters 0 0 0 0) w1 = (inr c, w2, t2) /\
    main env args w = (inr tt, w2, t0 ++ t1 ++ t2 ++ summary_lines args c) /\
    Forall (fun x => login_event x = true) t0 /\
    Forall (fun x => discovery_event x = true) t1 /\
    Forall (fun x => loop_event (dry_run args) x = true) t2 /\
    forall x, In x (t0 ++ t1 ++ t2 ++ summary_lines args c) ->
              is_summary_line x = true -> In x (summary_lines args c).
Proof.
  intros Hin Hsum.
  assert (forall x t, is_summary_line x = true ->
                      Forall (fun x => login_event x = true) t -> ~ In x t) as N0.
  { intros x t Hx Ht Hi. rewrite Forall_forall in Ht.
    destruct (login_event_facts x (Ht _ Hi)) as (_ & H & _). congruence. }
  assert (forall x t, is_summary_line x = true ->
                      Forall (fun x => discovery_event x = true) t -> ~ In x t) as N1.
  { intros x t Hx Ht Hi. rewrite Forall_forall in Ht.
    destruct (discovery_event_facts x (Ht _ Hi)) as (_ & H & _). congruence. }
  assert (forall x t, is_summary_line x = true ->
                      Forall (fun x => loop_event (dry_run args) x = true) t -> ~ In x t)
    as N2.
  { intros x t Hx Ht Hi. rewrite Forall_forall in Ht.
    destruct (loop_event_facts _ x (Ht _ Hi)) as (H & _). congruence. }
  rewrite main_run in Hin. rewrite main_run.
  assert (exists r0 w0 t0,
             (if dry_run args then (inr tt, w, [])
              else docker_login env (account_id args) (region args) (profile args) w)
             = (r0, w0, t0) /\ Forall (fun x => login_event x = true) t0)
    as (r0 & w0 & t0 & Heq & H0).
  { destruct (dry_run args).
    - exists (inr tt), w, []. split; [reflexivity | constructor].
    - pose proof (docker_login_events env (account_id args) (region args)
                    (profile args) w) as H.
      destruct (docker_login env (account_id args) (region args) (profile args) w)
        as [[r0 w0] t0].
      exists r0, w0, t0. split; [reflexivity | exact H]. }
  rewrite Heq in Hin |- *. clear Heq.
  destruct r0 as [e | []].
  { exfalso. destruct (is_called_process_error e); simpl in Hin.
    - apply in_app_or in Hin. destruct Hin as [Hin | [<- | []]].
      + now apply (N0 ev t0).
      + discriminate.
    - now apply (N0 ev t0). }
  pose proof (discovery_events env (get_ecr_client (region args) (profile args))
                (prefix args) w0) as H1.
  destruct (get_repositories_with_prefix env _ (prefix args) w0)
    as [[[e | repos] w1] t1] eqn:E1; simpl in H1.
  { exfalso. simpl in Hin. apply in_app_or in Hin.
    destruct Hin as [Hin | Hin]; [now apply (N0 ev t0) | now apply (N1 ev t1)]. }
  destruct (process_repos_run env (get_ecr_client (region args) (profile args))
              args repos (Counters 0 0 0 0) w1) as [H2 _].
  destruct (process_repos env _ args repos (Counters 0 0 0 0) w1)
    as [[[e | c] w2] t2] eqn:E2; simpl in H2.
  { exfalso. simpl in Hin. apply in_app_or in Hin.
    destruct Hin as [Hin | Hin]; [now apply (N0 ev t0) |].
    apply in_app_or in Hin.
    destruct Hin as [Hin | Hin]; [now apply (N1 ev t1) | now apply (N2 ev t2)]. }
  exists w0, t0, repos, w1, t1, c, w2, t2. repeat split; try assumption.
  intros x Hx Hs.
  apply in_app_or in Hx. destruct Hx as [Hx | Hx]; [now destruct (N0 x t0) |].
  apply in_app_or in Hx. destruct Hx as [Hx | Hx]; [now destruct (N1 x t1) |].
  apply in_app_or in Hx. destruct Hx as [Hx | Hx]; [now destruct (N2 x t2) |].
  assumption.
Qed.

End Summary.

(** C7, as the code has it.  The process ends with status 0 exactly when
    [main] returns.  It does so on normal completion, that is, whenever the
    summary is written, whatever the numbers of tags attempted, succeeded
    and failed; and when the login raises [CalledProcessError], where [main]
    logs the critical line and returns.  An exception that leaves [main]
    ends the process with status 1. *)
Theorem C7_exit_status_is_zero_exactly_when_main_returns
  (World : Type) (env : Env World) (args : Args) (w : World) :
  (forall lvl n s f,
      In (EvLog lvl (MsgTagsAttempted n s f)) (snd (run_script env args w)) ->
      fst (run_script env args w) = 0%Z) /\
  (forall w1 t1,
      dry_run args = false ->
      docker_login env (account_id args) (region args) (profile args) w
      = (inl CalledProcessError, w1, t1) ->
      run_script env args w
      = (0%Z, t1 ++ [EvLog CRITICAL (MsgLoginFailed CalledProcessError)])) /\
  (forall e, fst (fst (main env args w)) = inl e ->
             fst (run_script env args w) = 1%Z) /\
  (fst (run_script env args w) = 0%Z <-> fst (fst (main env args w)) = inr tt).
Proof.
  split; [| split; [| split]].
  - intros lvl n s f Hin. rewrite run_script_transcript in Hin.
    destruct (main_summary_inv env args w _ Hin eq_refl)
      as (w0 & t0 & repos & w1 & t1 & c & w2 & t2 & _ & _ & Hmain & _).
    rewrite run_script_status, Hmain. reflexivity.
  - intros w1 t1 Hdry Hlogin. unfold run_script.
    rewrite main_run, Hdry, Hlogin. reflexivity.
  - intros e He. rewrite run_script_status, He. reflexivity.
  - rewrite run_script_status.
    destruct (fst (fst (main env args w))) as [e | []]; simpl.
    + split; discriminate.
    + split; reflexivity.
Qed.

(** Every push fails, the summary counts three failures, the status is 0. *)
Lemma C7_exit_status_witness :
  In (EvLog INFO (MsgTagsAttempted 3 0 3))
     (snd (run_script failing_push_env (sample_args false) tt)) /\
  fst (run_script failing_push_env (sample_args false) tt) = 0%Z.
Proof.
  assert (In (EvLog INFO (MsgTagsAttempted 3 0 3))
             (snd (run_script failing_push_env (sample_args false) tt))) as Hin.
  { vm_compute. repeat (first [left; reflexivity | right]). }
  split; [exact Hin |].
  exact (proj1 (C7_exit_status_is_zero_exactly_when_main_returns unit failing_push_env
                  (sample_args false) tt) INFO 3 0 3 Hin).
Defined.

(** The process does not always end with status 0: when the registry refuses
    to list the repositories, the exception leaves [main] and the status is
    1. *)
Lemma C7_exit_status_counterexample :
  run_script denied_env (sample_args true) tt
  = (1%Z, [EvDescribeRepositories (DefaultClient "us-east-1") ([], Some ClientError)]) /\
  fst (run_script denied_env (sample_args true) tt) <> 0%Z.
Proof. split; [reflexivity | discriminate]. Qed.

(** ** The counters *)

(** C9.  When the summary is written, the number of tags attempted is the
    number of successes plus the number of failures.  The images of each
    discovered repository were listed once, in the order of discovery; with
    the ranking that [get_last_three_tags] made of each listing, the number
    of repositories touched is the number of non-empty rankings, the number
    of tags attempted is the sum of their lengths, and no ranking is longer
    than 3. *)
Theorem C9_summary_counters_follow_the_rankings
  (World : Type) (env : Env World) (args : Args) (w : World)
  (touched attempted succeeded failed : nat) :
  In (EvLog INFO (MsgReposTouched touched)) (snd (main env args w)) ->
  In (EvLog INFO (MsgTagsAttempted attempted succeeded failed)) (snd (main env args w)) ->
  attempted = succeeded + failed /\
  map fst (image_listings (snd (main env args w)))
  = discovered (prefix args) (snd (main env args w)) /\
  touched = length (filter nonempty (rankings (snd (main env args w)))) /\
  attempted = list_sum (map (@length string) (rankings (snd (main env args w)))) /\
  Forall (fun tags => length tags <= 3) (rankings (snd (main env args w))).
Proof.
  intros Hr Ht.
  destruct (main_summary_inv env args w _ Hr eq_refl)
    as (w0 & t0 & repos & w1 & t1 & c & w2 & t2 & E1 & E2 & Hmain & F0 & F1 & F2 & Hsum).
  rewrite Hmain in Hr, Ht |- *. simpl in Hr, Ht |- *.
  apply Hsum in Hr; [| reflexivity]. apply Hsum in Ht; [| reflexivity].
  assert (touched = total_repos c) as ->.
  { unfold summary_lines in Hr. simpl in Hr.
    destruct Hr as [Hr | [Hr | [Hr | Hr]]]; try discriminate.
    - now injection Hr as <-.
    - destruct (dry_run args); [destruct Hr as [Hr | []]; discriminate | destruct Hr]. }
  assert (attempted = total_tags c /\ succeeded = successes c /\ failed = failures c)
    as (-> & -> & ->).
  { unfold summary_lines in Ht. simpl in Ht.
    destruct Ht as [Ht | [Ht | [Ht | Ht]]]; try discriminate.
    - injection Ht as <- <- <-. now repeat split.
    - destruct (dry_run args); [destruct Ht as [Ht | []]; discriminate | destruct Ht]. }
  destruct (process_repos_run env (get_ecr_client (region args) (profile args))
              args repos (Counters 0 0 0 0) w1) as [_ Hc].
  rewrite E2 in Hc. specialize (Hc c eq_refl). simpl in Hc.
  destruct Hc as (Hlist & Hrepos & Htags & Hok & Hlen & _).
  destruct (discovery_discovered env _ _ _ _ _ _ E1) as [Hdisc Hnol].
  assert (image_listings t0 = [] /\ discovered (prefix args) t0 = []) as [L0 D0].
  { split; [apply image_listings_none | apply discovered_none];
      (eapply Forall_impl; [| exact F0]); intros ev Hev;
      destruct (login_event_facts ev Hev) as (_ & _ & _ & H); now destruct ev. }
  assert (discovered (prefix args) t2 = []) as D2.
  { apply discovered_none. eapply Forall_impl; [| exact F2]. intros ev Hev.
    now destruct (loop_event_facts _ ev Hev) as (_ & _ & _ & H). }
  assert (image_listings (summary_lines args c) = [] /\
          discovered (prefix args) (summary_lines args c) = []) as [Ls Ds].
  { unfold summary_lines. destruct (dry_run args); split; reflexivity. }
  assert (image_listings (t0 ++ t1 ++ t2 ++ summary_lines args c) = image_listings t2)
    as Himg.
  { rewrite !image_listings_app, L0, Hnol, Ls. simpl. apply app_nil_r. }
  unfold rankings in *. rewrite Himg.
  rewrite !discovered_app, D0, Hdisc, D2, Ds. simpl. rewrite app_nil_r.
  repeat split; try assumption; lia.
Qed.

(** One repository touched, three tags attempted, all three failed. *)
Lemma C9_summary_counters_witness :
  (In (EvLog INFO (MsgReposTouched 1)) (snd (main failing_push_env (sample_args false) tt)) /\
   In (EvLog INFO (MsgTagsAttempted 3 0 3))
      (snd (main failing_push_env (sample_args false) tt))) /\
  3 = 0 + 3 /\
  1 = length (filter nonempty
                (rankings (snd (main failing_push_env (sample_args false) tt)))).
Proof.
  assert (In (EvLog INFO (MsgReposTouched 1))
             (snd (main failing_push_env (sample_args false) tt))) as H1.
  { vm_compute. repeat (first [left; reflexivity | right]). }
  assert (In (EvLog INFO (MsgTagsAttempted 3 0 3))
             (snd (main failing_push_env (sample_args false) tt))) as H2.
  { vm_compute. repeat (first [left; reflexivity | right]). }
  split; [now split |].
  destruct (C9_summary_counters_follow_the_rankings unit failing_push_env
              (sample_args false) tt 1 3 0 3 H1 H2) as (Ha & _ & Hb & _).
  now split.
Defined.

(** ** The observations agree with the counters *)

Section Observations.

Context {World : Type} (env : Env World).

Lemma tags_attempted_app (t1 t2 : list event) :
  tags_attempted (t1 ++ t2) = tags_attempted t1 + tags_attempted t2.
Proof. unfold tags_attempted. now rewrite filter_app, length_app. Qed.

Lemma tags_attempted_none (t : list event) :
  Forall (fun ev => starts_worker ev = false) t -> tags_attempted t = 0.
Proof.
  unfold tags_attempted. induction 1 as [| ev t Hev _ IH]; [reflexivity |].
  simpl. now rewrite Hev.
Qed.

(** Every call of the worker writes exactly one of its two opening lines,
    whatever happens next. *)
Lemma process_tag_starts_once (ecr : client) (repo tag account_id region : string)
  (dry : bool) (w : World) :
  tags_attempted (snd (process_tag env ecr repo tag account_id region dry w)) = 1.
Proof.
  unfold process_tag, bind, try_except, log, subprocess_run, delete_image_tag, ret.
  destruct dry; simpl; [reflexivity |].
  repeat match goal with
    | |- context [run_command ?e ?a ?i ?w] =>
        destruct (run_command e a i w) as [[[] | ?] ?]; simpl
    | |- context [batch_delete_image ?e ?c ?r ?t ?w] =>
        destruct (batch_delete_image e c r t w) as [[[] | []] ?]; simpl
    end; reflexivity.
Qed.

Lemma process_tags_starts (ecr : client) (args : Args) (repo : string)
  (tags : list string) (c c' : counters) (w : World) :
  fst (fst (process_tags env ecr args repo tags c w)) = inr c' ->
  tags_attempted (snd (process_tags env ecr args repo tags c w)) = length tags.
Proof.
  revert c w. induction tags as [| tag rest IH]; intros c w; [reflexivity |].
  unfold process_tags; fold (@process_tags World env). rewrite bind_run.
  pose proof (process_tag_starts_once ecr repo tag (account_id args) (region args)
                (dry_run args) w) as Hone.
  destruct (process_tag env ecr repo tag (account_id args) (region args)
              (dry_run args) w) as [[[e | [ok reason]] w1] t1]; simpl in Hone.
  - discriminate.
  - rewrite bind_run. destruct ok; simpl; intros H;
      rewrite tags_attempted_app, Hone; simpl; f_equal; now apply IH in H.
Qed.

#[local] Arguments process_tags : simpl never.

Lemma process_repos_starts (ecr : client) (args : Args) (repos : list string)
  (c c' : counters) (w : World) :
  fst (fst (process_repos env ecr args repos c w)) = inr c' ->
  total_tags c' = total_tags c + tags_attempted (snd (process_repos env ecr args repos c w)).
Proof.
  revert c w. induction repos as [| repo rest IH]; intros c w.
  { simpl. intros H. injection H as <-. unfold tags_attempted. simpl. lia. }
  simpl. rewrite bind_run, get_last_three_tags_eq.
  destruct (paginate_describe_images env ecr repo "TAGGED" w) as [res w1]. simpl.
  assert (tags_attempted
            (match snd res with
             | Some e =>
                 if is_boto_error e then [EvLog ERROR (MsgListTagsFailed repo e)] else []
             | None => []
             end) = 0) as Hnone.
  { destruct (snd res) as [e |]; [| reflexivity]. now destruct (is_boto_error e). }
  destruct (ranking_of res) as [e | [| tag0 tags0]].
  - discriminate.
  - rewrite bind_run. unfold log at 1. simpl. intros H. apply IH in H.
    change (EvDescribeImages ecr repo "TAGGED" res :: ?x)
      with ([EvDescribeImages ecr repo "TAGGED" res] ++ x).
    rewrite !tags_attempted_app, Hnone. exact H.
  - rewrite bind_run. unfold log at 1. simpl. rewrite bind_run.
    set (c1 := Counters (total_repos c + 1) (total_tags c) (successes c) (failures c)).
    destruct (process_tags_run env ecr args repo (tag0 :: tags0) c1 w1) as [_ Hc1].
    pose proof (fun c2 => process_tags_starts ecr args repo (tag0 :: tags0) c1 c2 w1)
      as Hs1.
    destruct (process_tags env ecr args repo (tag0 :: tags0) c1 w1)
      as [[[e | c2] w2] t2].
    + discriminate.
    + specialize (Hc1 c2 eq_refl). specialize (Hs1 c2 eq_refl).
      cbn [fst snd] in *. intros H. apply IH in H.
      change (EvDescribeImages ecr repo "TAGGED" res :: ?x)
        with ([EvDescribeImages ecr repo "TAGGED" res] ++ x).
      rewrite !tags_attempted_app, Hnone.
      change (EvLog INFO (MsgProcessingRepo repo (tag0 :: tags0)) :: ?x)
        with ([EvLog INFO (MsgProcessingRepo repo (tag0 :: tags0))] ++ x).
      rewrite !tags_attempted_app.
      unfold tags_attempted at 1 2. simpl. simpl in Hs1, Hc1.
      destruct Hc1 as (_ & Hc1 & _). subst c1. simpl in Hc1. lia.
Qed.

(** On completion the summary reports the worker calls that were made: the
    number of tags attempted is the number of opening lines of the worker,
    and the number of repositories touched is at most the number of
    listings of images. *)
Lemma summary_counts_worker_calls (args : Args) (w : World)
  (touched attempted succeeded failed : nat) :
  In (EvLog INFO (MsgReposTouched touched)) (snd (main env args w)) ->
  In (EvLog INFO (MsgTagsAttempted attempted succeeded failed)) (snd (main env args w)) ->
  attempted = tags_attempted (snd (main env args w)) /\
  touched <= repositories_attempted (snd (main env args w)).
Proof.
  intros Hr Ht.
  destruct (main_summary_inv env args w _ Hr eq_refl)
    as (w0 & t0 & repos & w1 & t1 & c & w2 & t2 & E1 & E2 & Hmain & F0 & F1 & F2 & Hsum).
  rewrite Hmain in Hr, Ht |- *. simpl in Hr, Ht |- *.
  apply Hsum in Hr; [| reflexivity]. apply Hsum in Ht; [| reflexivity].
  assert (touched = total_repos c) as ->.
  { unfold summary_lines in Hr. simpl in Hr.
    destruct Hr as [Hr | [Hr | [Hr | Hr]]]; try discriminate.
    - now injection Hr as <-.
    - destruct (dry_run args); [destruct Hr as [Hr | []]; discriminate | destruct Hr]. }
  assert (attempted = total_tags c) as ->.
  { unfold summary_lines in Ht. simpl in Ht.
    destruct Ht as [Ht | [Ht | [Ht | Ht]]]; try discriminate.
    - now injection Ht as <- _ _.
    - destruct (dry_run args); [destruct Ht as [Ht | []]; discriminate | destruct Ht]. }
  pose proof (process_repos_starts (get_ecr_client (region args) (profile args))
                args repos (Counters 0 0 0 0) c w1) as Hstarts.
  destruct (process_repos_run env (get_ecr_client (region args) (profile args))
              args repos (Counters 0 0 0 0) w1) as [_ Hc].
  rewrite E2 in Hstarts, Hc. specialize (Hstarts eq_refl). specialize (Hc c eq_refl).
  simpl in Hstarts, Hc. destruct Hc as (_ & Hrepos & _).
  assert (tags_attempted t0 = 0) as S0.
  { apply tags_attempted_none. eapply Forall_impl; [| exact F0]. intros ev Hev.
    now destruct (login_event_facts ev Hev) as (_ & _ & H & _). }
  assert (tags_attempted t1 = 0) as S1.
  { apply tags_attempted_none. eapply Forall_impl; [| exact F1]. intros ev.
    destruct ev as [[] [] | | | |]; try discriminate; reflexivity. }
  assert (tags_attempted (summary_lines args c) = 0) as Ss.
  { unfold summary_lines. now destruct (dry_run args). }
  split.
  - rewrite !tags_attempted_app, S0, S1, Ss. lia.
  - unfold repositories_attempted. rewrite !image_listings_app, !length_app.
    rewrite Hrepos. unfold rankings.
    pose proof (filter_length_le nonempty
                  (map (fun x => tags_or_none (ranking_of (snd x))) (image_listings t2)))
      as Hle.
    rewrite length_map in Hle. lia.
Qed.

End Observations.

(** * Further properties of the script *)

(** ** Discovery: edge cases of the prefix *)

Lemma startswith_empty_prefix (name : string) : startswith name "" = true.
Proof. apply startswith_spec. now exists name. Qed.

Lemma startswith_empty_name (prefix : string) :
  startswith "" prefix = true <-> prefix = "".
Proof.
  rewrite startswith_spec. split.
  - intros [rest H]. destruct prefix; [reflexivity | discriminate].
  - intros ->. now exists "".
Qed.

Lemma startswith_longer_prefix (name prefix more : string) :
  startswith name (prefix ++ more)%string = true -> startswith name prefix = true.
Proof.
  rewrite !startswith_spec. intros [rest ->].
  exists (more ++ rest)%string. apply string_append_assoc.
Qed.

Lemma filter_all {A : Type} (f : A -> bool) (l : list A) :
  (forall x, In x l -> f x = true) -> filter f l = l.
Proof.
  induction l as [| x l IH]; intros H; simpl; [reflexivity |].
  rewrite (H x) by now left. f_equal. apply IH. intros y Hy. apply H. now right.
Qed.

Lemma filter_narrow {A : Type} (f g : A -> bool) (l : list A) :
  (forall x, f x = true -> g x = true) -> filter f (filter g l) = filter f l.
Proof.
  intros H. induction l as [| x l IH]; simpl; [reflexivity |].
  destruct (g x) eqn:Eg; simpl.
  - now rewrite IH.
  - destruct (f x) eqn:Ef; [| exact IH]. apply H in Ef. congruence.
Qed.

(** X1.  With the empty prefix discovery keeps the name of every listed
    repository.  A record without a name is read as the empty name, and the
    empty name is kept exactly when the prefix is empty. *)
Theorem X1_discovery_empty_prefix_and_missing_name
  (pages : list (page repository)) (prefix : string) :
  matching_in_pages "" pages [] = map name_of (concat (map page_get pages)) /\
  (In (Repository None) (concat (map page_get pages)) ->
   (In "" (matching_in_pages prefix pages []) <-> prefix = "")).
Proof.
  rewrite !matching_in_pages_filter. simpl. split.
  - apply filter_all. intros n _. apply startswith_empty_prefix.
  - intros Hin. rewrite filter_In, startswith_empty_name. split.
    + now intros [_ H].
    + intros H. split; [| assumption].
      apply in_map_iff. now exists (Repository None).
Qed.

(** A page with a nameless record, searched with and without a prefix. *)
Lemma X1_discovery_missing_name_witness :
  In "" (matching_in_pages "" [Some [Repository None; repo_named "github/a"]] []) /\
  ~ In "" (matching_in_pages "github/" [Some [Repository None; repo_named "github/a"]] []).
Proof.
  pose proof (proj2 (X1_discovery_empty_prefix_and_missing_name
                       [Some [Repository None; repo_named "github/a"]] "")
                (or_introl eq_refl)) as H1.
  pose proof (proj2 (X1_discovery_empty_prefix_and_missing_name
                       [Some [Repository None; repo_named "github/a"]] "github/")
                (or_introl eq_refl)) as H2.
  split.
  - now apply H1.
  - intros H. apply H2 in H. discriminate.
Defined.

(** X2.  A longer prefix only removes names: what discovery keeps for a
    prefix followed by more characters is what it keeps for the prefix,
    filtered by the longer prefix, in the same order. *)
Theorem X2_discovery_longer_prefix_narrows
  (pages : list (page repository)) (prefix more : string) :
  matching_in_pages (prefix ++ more)%string pages []
  = filter (fun n => startswith n (prefix ++ more)%string)
      (matching_in_pages prefix pages []) /\
  incl (matching_in_pages (prefix ++ more)%string pages [])
       (matching_in_pages prefix pages []).
Proof.
  rewrite !matching_in_pages_filter. simpl.
  assert (filter (fun n => startswith n (prefix ++ more)%string)
            (map name_of (concat (map page_get pages)))
          = filter (fun n => startswith n (prefix ++ more)%string)
              (filter (fun n => startswith n prefix)
                 (map name_of (concat (map page_get pages))))) as Heq.
  { symmetry. apply filter_narrow. intros n. apply startswith_longer_prefix. }
  split; [exact Heq |].
  rewrite Heq. intros n Hn. now apply filter_In in Hn.
Qed.

(** ** Both listings: the division into pages *)

(** X3.  Only the records matter, not their division into pages: two
    listings of repositories with the same records in the same order give
    the same names, two listings of images with the same records and the
    same ending give the same ranking, and a page without its list member
    counts as an empty page. *)
Theorem X3_results_do_not_depend_on_paging
  (prefix : string) (rpages1 rpages2 : list (page repository))
  (ipages1 ipages2 : list (page image)) (failure : option exn) :
  (concat (map page_get rpages1) = concat (map page_get rpages2) ->
   matching_in_pages prefix rpages1 [] = matching_in_pages prefix rpages2 []) /\
  (concat (map page_get ipages1) = concat (map page_get ipages2) ->
   ranking_of (ipages1, failure) = ranking_of (ipages2, failure)) /\
  matching_in_pages prefix (None :: rpages1) [] = matching_in_pages prefix rpages1 [] /\
  ranking_of (None :: ipages1, failure) = ranking_of (ipages1, failure).
Proof.
  unfold ranking_of. simpl. rewrite !matching_in_pages_filter.
  rewrite !images_of_pages_concat. simpl.
  repeat split.
  - now intros ->.
  - now intros ->.
Qed.

(** One page of two images against two pages with a page without
    [imageDetails] in between. *)
Lemma X3_paging_witness :
  ranking_of ([Some [Image (Some 1%Z) (Some ["a"]); Image (Some 2%Z) (Some ["b"])]], None)
  = ranking_of ([Some [Image (Some 1%Z) (Some ["a"])]; None;
                 Some [Image (Some 2%Z) (Some ["b"])]], None).
Proof.
  exact (proj1 (proj2 (X3_results_do_not_depend_on_paging "" [] []
                         [Some [Image (Some 1%Z) (Some ["a"]); Image (Some 2%Z) (Some ["b"])]]
                         [Some [Image (Some 1%Z) (Some ["a"])]; None;
                          Some [Image (Some 2%Z) (Some ["b"])]]
                         None))
           eq_refl).
Defined.

(** ** Ranking: what it never returns, and what the order depends on *)

Lemma rank_images_unfold (imgs : list image) :
  rank_images imgs
  = match sort_images imgs with
    | inl e => inl e
    | inr sorted => inr (walk_images sorted [])
    end.
Proof. now destruct imgs. Qed.

Lemma comparable_perm (l1 l2 : list image) :
  Permutation l1 l2 -> comparable l1 = true -> comparable l2 = true.
Proof.
  intros Hp. rewrite !comparable_iff. intros H a b Ha Hb.
  apply H; eapply Permutation_in; try eassumption; now apply Permutation_sym.
Qed.

(** With pairwise distinct instants there is one way to sort. *)
Lemma sorted_images_unique (s1 s2 : list image) :
  StronglySorted newer_or_equal s1 -> StronglySorted newer_or_equal s2 ->
  Permutation s1 s2 -> NoDup (map pushed_instant s1) -> s1 = s2.
Proof.
  revert s2. induction s1 as [| a s1 IH]; intros s2 H1 H2 Hp Hnd.
  - apply Permutation_nil in Hp. now subst.
  - destruct s2 as [| b s2].
    + apply Permutation_sym, Permutation_nil in Hp. discriminate.
    + apply StronglySorted_inv in H1. destruct H1 as [H1 Ha].
      apply StronglySorted_inv in H2. destruct H2 as [H2 Hb].
      simpl in Hnd. apply NoDup_cons_iff in Hnd. destruct Hnd as [Hna Hnd].
      rewrite Forall_forall in Ha, Hb.
      assert (a = b) as ->.
      { assert (In b (a :: s1)) as Hin
            by (apply (Permutation_in _ (Permutation_sym Hp)); now left).
        destruct Hin as [-> | Hin]; [reflexivity |]. exfalso.
        assert (In a (b :: s2)) as Hin' by (apply (Permutation_in _ Hp); now left).
        apply Hna. destruct Hin' as [<- | Hin'].
        - now apply in_map.
        - specialize (Ha _ Hin). specialize (Hb _ Hin'). unfold newer_or_equal in *.
          replace (pushed_instant a) with (pushed_instant b) by lia.
          now apply in_map. }
      f_equal. apply IH; try assumption. now apply Permutation_cons_inv in Hp.
Qed.

(** X4.  When the images have pairwise distinct push instants (a missing
    push time counting as instant 0), the outcome of the ranking does not
    depend on the order in which the registry lists the images: any
    rearrangement of the listing gives the same tags, or the same
    exception. *)
Theorem X4_ranking_ignores_listing_order_for_distinct_instants
  (imgs1 imgs2 : list image) :
  Permutation imgs1 imgs2 ->
  NoDup (map pushed_instant imgs1) ->
  rank_images imgs1 = rank_images imgs2.
Proof.
  intros Hp Hnd. rewrite !rank_images_unfold.
  destruct (sort_images imgs1) as [e1 | s1] eqn:E1;
    destruct (sort_images imgs2) as [e2 | s2] eqn:E2.
  - apply sort_images_raises in E1, E2. now subst.
  - exfalso. apply sort_images_comparable in E2.
    apply (comparable_perm _ _ (Permutation_sym Hp)) in E2.
    destruct (sort_images_total _ E2) as [s Hs]. congruence.
  - exfalso. apply sort_images_comparable in E1.
    apply (comparable_perm _ _ Hp) in E1.
    destruct (sort_images_total _ E1) as [s Hs]. congruence.
  - f_equal. f_equal. apply sorted_images_unique.
    + exact (sort_images_sorted _ _ E1).
    + exact (sort_images_sorted _ _ E2).
    + rewrite <- (sort_images_perm _ _ E1), <- (sort_images_perm _ _ E2). exact Hp.
    + apply (Permutation_NoDup (Permutation_map pushed_instant (sort_images_perm _ _ E1))).
      exact Hnd.
Qed.

(** Three images listed oldest first and in another order. *)
Lemma X4_listing_order_witness :
  rank_images [Image (Some 1%Z) (Some ["a"]); Image (Some 2%Z) (Some ["b"]);
               Image (Some 3%Z) (Some ["c"; "d"])]
  = rank_images [Image (Some 2%Z) (Some ["b"]); Image (Some 3%Z) (Some ["c"; "d"]);
                 Image (Some 1%Z) (Some ["a"])].
Proof.
  apply X4_ranking_ignores_listing_order_for_distinct_instants.
  - apply Permutation_cons_app with (l1 := [_; _]) (l2 := []). apply Permutation_refl.
  - vm_compute. repeat constructor; simpl; intuition discriminate.
Defined.

Lemma firstn_eq_nil {A : Type} (n : nat) (l : list A) :
  firstn (S n) l = [] <-> l = [].
Proof.
  destruct l; [split; reflexivity |]. split; discriminate.
Qed.

(** X5.  Whatever the listing holds, a ranking that returns gives at most
    three tags, without repetition, each of them a tag of a listed image,
    and it is empty exactly when no listed image has a tag. *)
Theorem X5_ranking_returns_tags_of_listed_images
  (imgs : list image) (tags : list string) :
  rank_images imgs = inr tags ->
  length tags <= 3 /\
  NoDup tags /\
  (forall t, In t tags -> exists img, In img imgs /\ In t (tags_of img)) /\
  (tags = [] <-> forall img, In img imgs -> tags_of img = []).
Proof.
  rewrite rank_images_unfold.
  destruct (sort_images imgs) as [e | sorted] eqn:Es; [discriminate |].
  intros H. injection H as <-.
  pose proof (sort_images_perm _ _ Es) as Hp.
  rewrite walk_images_distinct.
  split; [apply firstn_le_length |].
  split; [apply NoDup_firstn, distinct_NoDup |].
  split.
  - intros t Ht.
    assert (In t (distinct (tag_stream sorted))) as Hd.
    { rewrite <- (firstn_skipn 3 (distinct (tag_stream sorted))).
      apply in_or_app. now left. }
    apply (proj1 (distinct_In _ _)) in Hd. unfold tag_stream in Hd.
    apply (proj1 (in_flat_map _ _ _)) in Hd.
    destruct Hd as [img [Hi Hti]]. exists img. split; [| assumption].
    now apply (Permutation_in _ (Permutation_sym Hp)).
  - rewrite firstn_eq_nil. split.
    + intros Hnil img Hi.
      destruct (tags_of img) as [| t ts] eqn:Et; [reflexivity | exfalso].
      assert (In t (distinct (tag_stream sorted))) as Hd.
      { apply distinct_In. unfold tag_stream. apply in_flat_map. exists img. split.
        - now apply (Permutation_in _ Hp).
        - rewrite Et. now left. }
      rewrite Hnil in Hd. destruct Hd.
    + intros Hall.
      destruct (distinct (tag_stream sorted)) as [| t ts] eqn:Ed; [reflexivity | exfalso].
      assert (In t (tag_stream sorted)) as Hin
          by (apply distinct_In; rewrite Ed; now left).
      unfold tag_stream in Hin. apply (proj1 (in_flat_map _ _ _)) in Hin.
      destruct Hin as [img [Hi Hti]].
      rewrite (Hall img) in Hti; [destruct Hti |].
      now apply (Permutation_in _ (Permutation_sym Hp)).
Qed.

(** The scenario of the specification: three tags, all from listed images. *)
Lemma X5_ranking_witness :
  rank_images [Image (Some 100%Z) (Some ["v1"; "v2"]); Image (Some 200%Z) (Some ["v3"])]
  = inr ["v3"; "v1"; "v2"] /\
  length ["v3"; "v1"; "v2"] <= 3 /\ NoDup ["v3"; "v1"; "v2"].
Proof.
  split; [reflexivity |].
  destruct (X5_ranking_returns_tags_of_listed_images
              [Image (Some 100%Z) (Some ["v1"; "v2"]); Image (Some 200%Z) (Some ["v3"])]
              ["v3"; "v1"; "v2"] eq_refl) as (H1 & H2 & _).
  now split.
Defined.

(** ** Ranking: images older than the ones already listed *)

Lemma insert_desc_app (x : image) (s1 s2 r : list image) :
  insert_desc x s1 = inr r ->
  (forall y, In y s2 ->
             has_push_time x = has_push_time y /\
             (pushed_instant y <= pushed_instant x)%Z) ->
  insert_desc x (s1 ++ s2) = inr (r ++ s2).
Proof.
  revert r. induction s1 as [| y s1 IH]; intros r H Hs2.
  - injection H as <-. destruct s2 as [| y s2]; [reflexivity |].
    simpl. destruct (Hs2 y (or_introl eq_refl)) as [Hk Hle].
    rewrite (py_lt_same_kind _ _ Hk).
    replace (pushed_instant x <? pushed_instant y)%Z with false; [reflexivity |].
    symmetry. apply Z.ltb_ge. exact Hle.
  - simpl in H |- *.
    destruct (py_lt (pushed_key x) (pushed_key y)) as [e | [|]]; try discriminate.
    + destruct (insert_desc x s1) as [e | r'] eqn:E; [discriminate |].
      injection H as <-. now rewrite (IH _ eq_refl Hs2).
    + now injection H as <-.
Qed.

Lemma sort_images_app (l1 l2 s1 s2 : list image) :
  sort_images l1 = inr s1 -> sort_images l2 = inr s2 ->
  (forall a b, In a l1 -> In b l2 ->
               has_push_time a = has_push_time b /\
               (pushed_instant b <= pushed_instant a)%Z) ->
  sort_images (l1 ++ l2) = inr (s1 ++ s2).
Proof.
  revert s1. induction l1 as [| x l1 IH]; intros s1 H1 H2 Hle.
  - simpl in H1. injection H1 as <-. exact H2.
  - simpl in H1 |- *. destruct (sort_images l1) as [e | s1'] eqn:E; [discriminate |].
    rewrite (IH s1' eq_refl H2).
    + apply insert_desc_app; [assumption |].
      intros y Hy. apply Hle; [now left |].
      now apply (Permutation_in _ (Permutation_sym (sort_images_perm _ _ H2))).
    + intros a b Ha Hb. apply Hle; [now right | assumption].
Qed.

(** X6.  Images that are not newer than any image already listed, and that
    come after them in the listing, cannot change the tags already ranked
    or their order: the ranking of the longer listing starts with the
    ranking of the shorter one, and a ranking that already holds three tags
    stays as it is. *)
Theorem X6_older_images_only_fill_free_slots (imgs older : list image) :
  comparable (imgs ++ older) = true ->
  (forall a b, In a imgs -> In b older ->
               (pushed_instant b <= pushed_instant a)%Z) ->
  exists tags more,
    rank_images imgs = inr tags /\
    rank_images (imgs ++ older) = inr (tags ++ more) /\
    (length tags = 3 -> more = []).
Proof.
  intros Hcmp Hle.
  rewrite comparable_iff in Hcmp.
  assert (comparable imgs = true) as C1.
  { apply comparable_iff. intros a b Ha Hb. apply Hcmp; apply in_or_app; now left. }
  assert (comparable older = true) as C2.
  { apply comparable_iff. intros a b Ha Hb. apply Hcmp; apply in_or_app; now right. }
  destruct (sort_images_total _ C1) as [s1 E1].
  destruct (sort_images_total _ C2) as [s2 E2].
  assert (sort_images (imgs ++ older) = inr (s1 ++ s2)) as E.
  { apply sort_images_app; try assumption. intros a b Ha Hb. split.
    - apply Hcmp; apply in_or_app; [now left | now right].
    - now apply Hle. }
  rewrite !rank_images_unfold, E1, E. rewrite !walk_images_distinct.
  unfold tag_stream. rewrite flat_map_app. unfold distinct.
  rewrite distinct_onto_app.
  destruct (distinct_onto_extends (flat_map tags_of s2)
              (distinct_onto [] (flat_map tags_of s1))) as [x ->].
  rewrite firstn_app.
  exists (firstn 3 (distinct_onto [] (flat_map tags_of s1))),
    (firstn (3 - length (distinct_onto [] (flat_map tags_of s1))) x).
  split; [reflexivity |]. split; [reflexivity |].
  rewrite length_firstn. intros H.
  replace (3 - length (distinct_onto [] (flat_map tags_of s1))) with 0 by lia.
  reflexivity.
Qed.

(** One older image added to the scenario of the specification, and one
    added to a listing with a free slot. *)
Lemma X6_older_images_witness :
  rank_images ([Image (Some 100%Z) (Some ["v1"; "v2"]); Image (Some 200%Z) (Some ["v3"])]
               ++ [Image (Some 50%Z) (Some ["v0"])])
  = inr ["v3"; "v1"; "v2"] /\
  rank_images ([Image (Some 200%Z) (Some ["v3"])] ++ [Image (Some 50%Z) (Some ["v0"; "v3"])])
  = inr (["v3"] ++ ["v0"]).
Proof.
  split.
  - destruct (X6_older_images_only_fill_free_slots
                [Image (Some 100%Z) (Some ["v1"; "v2"]); Image (Some 200%Z) (Some ["v3"])]
                [Image (Some 50%Z) (Some ["v0"])] eq_refl)
      as (tags & more & H1 & H2 & H3).
    + intros a b [<- | [<- | []]] [<- | []]; vm_compute; discriminate.
    + injection H1 as <-. rewrite H2, (H3 eq_refl). reflexivity.
  - reflexivity.
Defined.

(** ** Discovery and login: failures *)

Lemma main_run_steps {World : Type} (env : Env World) (args : Args) (w : World) :
  main env args w
  = match login_step env args w with
    | (inl e, w0, t0) =>
        if is_called_process_error e
        then (inr tt, w0, t0 ++ [EvLog CRITICAL (MsgLoginFailed e)])
        else (inl e, w0, t0)
    | (inr _, w0, t0) =>
        match get_repositories_with_prefix env
                (get_ecr_client (region args) (profile args)) (prefix args) w0 with
        | (inl e, w1, t1) => (inl e, w1, t0 ++ t1)
        | (inr repos, w1, t1) =>
            match process_repos env (get_ecr_client (region args) (profile args))
                    args repos (Counters 0 0 0 0) w1 with
            | (inl e, w2, t2) => (inl e, w2, t0 ++ t1 ++ t2)
            | (inr c, w2, t2) => (inr tt, w2, t0 ++ t1 ++ t2 ++ summary_lines args c)
            end
        end
    end.
Proof. rewrite main_run. reflexivity. Qed.

Lemma login_step_events {World : Type} (env : Env World) (args : Args) (w : World) :
  Forall (fun ev => login_event ev = true) (snd (login_step env args w)).
Proof.
  unfold login_step. destruct (dry_run args); [constructor |].
  apply docker_login_events.
Qed.

(** X7.  A failure while listing the repositories is not caught anywhere:
    [get_repositories_with_prefix] raises the exception of the paginator,
    of whatever class, writes no log line and returns no partial result,
    and [main] ends with this exception right after the listing, without
    listing any image, starting the worker or writing a summary. *)
Theorem X7_discovery_failure_is_not_caught
  (World : Type) (env : Env World) (args : Args) (w w0 w1 : World)
  (t0 : list event) (pages : list (page repository)) (e : exn) :
  login_step env args w = (inr tt, w0, t0) ->
  paginate_describe_repositories env (get_ecr_client (region args) (profile args)) w0
  = ((pages, Some e), w1) ->
  get_repositories_with_prefix env (get_ecr_client (region args) (profile args))
    (prefix args) w0
  = (inl e, w1,
     [EvDescribeRepositories (get_ecr_client (region args) (profile args))
        (pages, Some e)]) /\
  main env args w
  = (inl e, w1,
     t0 ++ [EvDescribeRepositories (get_ecr_client (region args) (profile args))
              (pages, Some e)]) /\
  repositories_attempted (snd (main env args w)) = 0 /\
  tags_attempted (snd (main env args w)) = 0 /\
  Forall (fun ev => is_summary_line ev = false) (snd (main env args w)).
Proof.
  intros Hlogin Hlist.
  assert (get_repositories_with_prefix env (get_ecr_client (region args) (profile args))
            (prefix args) w0
          = (inl e, w1,
             [EvDescribeRepositories (get_ecr_client (region args) (profile args))
                (pages, Some e)])) as Hget.
  { unfold get_repositories_with_prefix, bind, describe_repositories.
    now rewrite Hlist. }
  assert (Forall (fun ev => login_event ev = true) t0) as F0.
  { pose proof (login_step_events env args w) as H. now rewrite Hlogin in H. }
  split; [exact Hget |].
  assert (main env args w
          = (inl e, w1,
             t0 ++ [EvDescribeRepositories (get_ecr_client (region args) (profile args))
                      (pages, Some e)])) as Hmain.
  { rewrite main_run_steps, Hlogin, Hget. reflexivity. }
  split; [exact Hmain |].
  rewrite Hmain. simpl.
  unfold repositories_attempted. rewrite image_listings_app, tags_attempted_app.
  assert (image_listings t0 = []) as L0.
  { apply image_listings_none. eapply Forall_impl; [| exact F0]. intros ev Hev.
    destruct (login_event_facts ev Hev) as (_ & _ & _ & H). now destruct ev. }
  assert (tags_attempted t0 = 0) as S0.
  { apply tags_attempted_none. eapply Forall_impl; [| exact F0]. intros ev Hev.
    now destruct (login_event_facts ev Hev) as (_ & _ & H & _). }
  rewrite L0, S0. repeat split.
  apply Forall_app. split; [| repeat constructor].
  eapply Forall_impl; [| exact F0]. intros ev Hev.
  now destruct (login_event_facts ev Hev) as (_ & H & _).
Qed.

(** A live run whose login succeeds and whose listing of repositories is
    refused. *)
Lemma X7_discovery_failure_witness :
  fst (fst (main denied_env (sample_args false) tt)) = inl ClientError /\
  repositories_attempted (snd (main denied_env (sample_args false) tt)) = 0.
Proof.
  destruct (X7_discovery_failure_is_not_caught unit denied_env (sample_args false)
              tt tt tt _ [] ClientError eq_refl eq_refl)
    as (_ & Hmain & Hrepos & _).
  split; [now rewrite Hmain | exact Hrepos].
Defined.

(** X8.  [docker_login] asks for the password first and runs the login of
    the container tool only when that command succeeded.  The password
    travels on the standard input of the login command and nowhere else:
    the two command lines and the two log lines are fixed by account,
    region and profile.  A failure of either command leaves the function as
    the exception that was raised. *)
Theorem X8_login_is_gated_and_passes_the_password_on_stdin
  (World : Type) (env : Env World) (account_id region : string)
  (profile : option string) (w : World) :
  (forall e w1,
      run_command env (password_command region profile) None w = (inl e, w1) ->
      docker_login env account_id region profile w
      = (inl e, w1,
         [EvLog DEBUG (MsgRunning (String.concat " " (password_command region profile)));
          EvRun (password_command region profile) None (inl e)])) /\
  (forall auth w1 res w2,
      run_command env (password_command region profile) None w = (inr auth, w1) ->
      run_command env (container_login_command account_id region) (Some auth) w1
      = (res, w2) ->
      docker_login env account_id region profile w
      = (match res with inl e => inl e | inr _ => inr tt end, w2,
         [EvLog DEBUG (MsgRunning (String.concat " " (password_command region profile)));
          EvRun (password_command region profile) None (inr auth);
          EvLog INFO (MsgLoggingIn (registry_host account_id region));
          EvRun (container_login_command account_id region) (Some auth) res])).
Proof.
  unfold docker_login, password_command, container_login_command,
    bind, log, subprocess_run, ret.
  split.
  - intros e w1 H. destruct (truthy profile); simpl in *; rewrite ?app_nil_r in H;
      now rewrite H.
  - intros auth w1 res w2 H1 H2.
    destruct (truthy profile); simpl in *; rewrite ?app_nil_r in H1;
      rewrite H1; simpl; rewrite H2; now destruct res.
Qed.

(** The password command fails, then succeeds with a password. *)
Lemma X8_login_witness :
  external_calls (snd (docker_login failing_host_env "123456789012" "us-east-1" None tt))
  = [EvRun ["aws"; "ecr"; "get-login-password"; "--region"; "us-east-1"] None
       (inl CalledProcessError)] /\
  external_calls
    (snd (docker_login password_env "123456789012" "us-east-1" (Some "ci") tt))
  = [EvRun ["aws"; "ecr"; "get-login-password"; "--region"; "us-east-1"; "--profile"; "ci"]
       None (inr "secret");
     EvRun ["docker"; "login"; "--username"; "AWS"; "--password-stdin";
            "123456789012.dkr.ecr.us-east-1.amazonaws.com"]
       (Some "secret") (inr "")].
Proof.
  split.
  - rewrite (proj1 (X8_login_is_gated_and_passes_the_password_on_stdin unit
                      failing_host_env "123456789012" "us-east-1" None tt)
               CalledProcessError tt eq_refl).
    reflexivity.
  - rewrite (proj2 (X8_login_is_gated_and_passes_the_password_on_stdin unit password_env
                      "123456789012" "us-east-1" (Some "ci") tt)
               "secret" tt (inr "") tt eq_refl eq_refl).
    reflexivity.
Defined.

(** ** The refresh worker in any environment *)

Ltac answer_all_oracles :=
  repeat match goal with
    | |- context [run_command ?e ?a ?i ?w] =>
        destruct (run_command e a i w) as [[[] | ?] ?]; simpl
    | |- context [batch_delete_image ?e ?c ?r ?t ?w] =>
        destruct (batch_delete_image e c r t w) as [[[] | []] ?]; simpl
    end.

(** X10.  Without dry-run and whatever the environment answers, the
    external calls of [process_tag] are a pull alone when the pull raised,
    a pull and a deletion when the deletion raised, and a pull, a deletion
    and a push otherwise: nothing is deleted before a successful pull,
    nothing is pushed before a successful deletion, no call is repeated and
    nothing is undone after a failed push.  An exception of the class the
    step's handler names becomes the step's reason code; any other
    exception leaves the function.  The result is (True, "ok") only after
    three successful calls. *)
Theorem X10_live_worker_calls_are_a_prefix_of_pull_delete_push
  (World : Type) (env : Env World) (ecr : client)
  (repo tag account_id region : string) (w : World) :
  let uri := image_uri account_id region repo tag in
  let pull := ["docker"; "pull"; uri] in
  let push := ["docker"; "push"; uri] in
  let r := fst (fst (process_tag env ecr repo tag account_id region false w)) in
  let calls :=
    external_calls (snd (process_tag env ecr repo tag account_id region false w)) in
  (exists e,
      calls = [EvRun pull None (inl e)] /\
      r = if is_called_process_error e then inr (false, "pull-failed") else inl e) \/
  (exists out e,
      calls = [EvRun pull None (inr out); EvBatchDeleteImage ecr repo tag (inl e)] /\
      r = if is_boto_error e then inr (false, "delete-failed") else inl e) \/
  (exists out e,
      calls = [EvRun pull None (inr out); EvBatchDeleteImage ecr repo tag (inr tt);
               EvRun push None (inl e)] /\
      r = if is_called_process_error e then inr (false, "push-failed") else inl e) \/
  (exists out out',
      calls = [EvRun pull None (inr out); EvBatchDeleteImage ecr repo tag (inr tt);
               EvRun push None (inr out')] /\
      r = inr (true, "ok")).
Proof.
  intros uri pull push. subst uri pull push. cbv zeta.
  unfold process_tag, bind, try_except, log, subprocess_run, delete_image_tag, ret.
  generalize (image_uri account_id region repo tag). intros uri.
  simpl. answer_all_oracles;
    first [ left; eexists; split; reflexivity
          | right; left; do 2 eexists; split; reflexivity
          | right; right; left; do 2 eexists; split; reflexivity
          | right; right; right; do 2 eexists; split; reflexivity ].
Qed.

(** X11.  The reason codes form a closed set tied to the success flag:
    "dry-run" with True in dry-run mode and only there; otherwise "ok" with
    True, or one of "pull-failed", "delete-failed" and "push-failed" with
    False. *)
Theorem X11_worker_reason_codes
  (World : Type) (env : Env World) (ecr : client)
  (repo tag account_id region : string) (dry : bool) (w : World)
  (ok : bool) (reason : string) :
  fst (fst (process_tag env ecr repo tag account_id region dry w)) = inr (ok, reason) ->
  (dry = true /\ ok = true /\ reason = "dry-run") \/
  (dry = false /\ ok = true /\ reason = "ok") \/
  (dry = false /\ ok = false /\
   (reason = "pull-failed" \/ reason = "delete-failed" \/ reason = "push-failed")).
Proof.
  unfold process_tag, bind, try_except, log, subprocess_run, delete_image_tag, ret.
  generalize (image_uri account_id region repo tag). intros uri.
  destruct dry; simpl.
  - intros H. injection H as <- <-. left. now repeat split.
  - answer_all_oracles; intros H; try discriminate; injection H as <- <-;
      right; first [ left; now repeat split | right; repeat split; tauto ].
Qed.

(** The deletion is refused: the code is "delete-failed". *)
Lemma X11_reason_codes_witness :
  fst (fst (process_tag failing_delete_env (DefaultClient "us-east-1") "github/a" "v3"
              "123456789012" "us-east-1" false tt))
  = inr (false, "delete-failed") /\
  (false = true /\ false = true /\ "delete-failed" = "dry-run" \/
   false = false /\ false = true /\ "delete-failed" = "ok" \/
   false = false /\ false = false /\
   ("delete-failed" = "pull-failed" \/ "delete-failed" = "delete-failed" \/
    "delete-failed" = "push-failed")).
Proof.
  split; [reflexivity |].
  exact (X11_worker_reason_codes unit failing_delete_env (DefaultClient "us-east-1")
           "github/a" "v3" "123456789012" "us-east-1" false tt false "delete-failed"
           eq_refl).
Defined.

(** ** A loop that no tag and no repository can end *)

Section Restrained.

Context {World : Type} (env : Env World).

(** An environment in which a command fails only by its exit status, the
    registry fails only with exceptions of the SDK, and the push times of a
    listing can be ordered. *)
Hypothesis commands_fail_by_status :
  forall argv input w e,
    fst (run_command env argv input w) = inl e -> e = CalledProcessError.
Hypothesis deletions_fail_in_the_sdk :
  forall ecr repo tag w e,
    fst (batch_delete_image env ecr repo tag w) = inl e -> is_boto_error e = true.
Hypothesis image_listings_fail_in_the_sdk :
  forall ecr repo status w e,
    snd (fst (paginate_describe_images env ecr repo status w)) = Some e ->
    is_boto_error e = true.
Hypothesis push_times_can_be_ordered :
  forall ecr repo status w,
    comparable
      (images_of_pages (fst (fst (paginate_describe_images env ecr repo status w))) [])
    = true.

Lemma restrained_process_tag (ecr : client) (repo tag account_id region : string)
  (dry : bool) (w : World) :
  exists r, fst (fst (process_tag env ecr repo tag account_id region dry w)) = inr r.
Proof.
  unfold process_tag, bind, try_except, log, subprocess_run, delete_image_tag, ret.
  generalize (image_uri account_id region repo tag). intros uri.
  destruct dry; simpl; [eexists; reflexivity |].
  destruct (run_command env ["docker"; "pull"; uri] None w) as [[e | out] w1] eqn:E1.
  { rewrite (commands_fail_by_status ["docker"; "pull"; uri] None w e)
      by now rewrite E1.
    simpl. eexists; reflexivity. }
  simpl.
  destruct (batch_delete_image env ecr repo tag w1) as [[e | []] w2] eqn:E2.
  { simpl. rewrite (deletions_fail_in_the_sdk ecr repo tag w1 e) by now rewrite E2.
    simpl. eexists; reflexivity. }
  simpl.
  destruct (run_command env ["docker"; "push"; uri] None w2) as [[e | out'] w3] eqn:E3.
  { rewrite (commands_fail_by_status ["docker"; "push"; uri] None w2 e)
      by now rewrite E3.
    simpl. eexists; reflexivity. }
  simpl. eexists; reflexivity.
Qed.

Lemma restrained_process_tags (ecr : client) (args : Args) (repo : string)
  (tags : list string) (c : counters) (w : World) :
  exists c', fst (fst (process_tags env ecr args repo tags c w)) = inr c'.
Proof.
  revert c w. induction tags as [| tag rest IH]; intros c w.
  - now exists c.
  - simpl. rewrite bind_run.
    destruct (restrained_process_tag ecr repo tag (account_id args) (region args)
                (dry_run args) w) as [[ok reason] Hr].
    destruct (process_tag env ecr repo tag (account_id args) (region args)
                (dry_run args) w) as [[r w1] t1].
    simpl in Hr. subst r. rewrite bind_run. destruct ok; simpl; apply IH.
Qed.

Lemma restrained_get_last_three_tags (ecr : client) (repo : string) (w : World) :
  exists tags, fst (fst (get_last_three_tags env ecr repo w)) = inr tags.
Proof.
  rewrite get_last_three_tags_eq. simpl. unfold ranking_of.
  pose proof (image_listings_fail_in_the_sdk ecr repo "TAGGED" w) as Hf.
  pose proof (push_times_can_be_ordered ecr repo "TAGGED" w) as Hc.
  destruct (paginate_describe_images env ecr repo "TAGGED" w) as [[pages [e |]] w1];
    simpl in *.
  - rewrite (Hf e eq_refl). now exists [].
  - destruct (sort_images_total _ Hc) as [sorted Hs].
    rewrite (rank_images_sorted _ _ Hs). eexists; reflexivity.
Qed.

#[local] Arguments process_tags : simpl never.

Lemma restrained_process_repos (ecr : client) (args : Args) (repos : list string)
  (c : counters) (w : World) :
  exists c', fst (fst (process_repos env ecr args repos c w)) = inr c'.
Proof.
  revert c w. induction repos as [| repo rest IH]; intros c w.
  - now exists c.
  - simpl. rewrite bind_run.
    destruct (restrained_get_last_three_tags ecr repo w) as [tags Ht].
    destruct (get_last_three_tags env ecr repo w) as [[r w1] t1].
    simpl in Ht. subst r. destruct tags as [| tag0 tags0].
    + rewrite bind_run. unfold log at 1. simpl. apply IH.
    + rewrite bind_run. unfold log at 1. simpl. rewrite bind_run.
      match goal with
      | |- context [process_tags env ecr args repo (tag0 :: tags0) ?c1 w1] =>
          destruct (restrained_process_tags ecr args repo (tag0 :: tags0) c1 w1)
            as [c2 Hc2];
          destruct (process_tags env ecr args repo (tag0 :: tags0) c1 w1)
            as [[r2 w2] t2]
      end.
      simpl in Hc2. subst r2. simpl. apply IH.
Qed.

(** X12.  In an environment where a command fails only by exiting non-zero,
    the registry raises only exceptions of the SDK while deleting a tag or
    listing images, and the images of a listing have push times that can be
    ordered, no failure of a tag or of a repository ends the loop of [main]
    over the repositories: for every list of repositories the loop runs to
    its end, lists the images of each repository once, in order, and every
    ranked tag ends as a success or as a failure. *)
Theorem X12_failures_of_tags_and_repositories_do_not_end_the_loop
  (ecr : client) (args : Args) (repos : list string) (c : counters) (w : World) :
  exists c',
    fst (fst (process_repos env ecr args repos c w)) = inr c' /\
    map fst (image_listings (snd (process_repos env ecr args repos c w))) = repos /\
    successes c' + failures c'
    = successes c + failures c
      + list_sum (map (@length string)
                    (rankings (snd (process_repos env ecr args repos c w)))).
Proof.
  destruct (restrained_process_repos ecr args repos c w) as [c' Hc'].
  exists c'. split; [exact Hc' |].
  destruct (process_repos_run env ecr args repos c w) as [_ Hrun].
  destruct (Hrun c' Hc') as (Hlist & _ & _ & Hok & _).
  split; assumption.
Qed.

End Restrained.

(** Every push fails and the loop still visits both repositories. *)
Lemma X12_loop_is_not_ended_witness :
  exists c',
    fst (fst (process_repos failing_push_env (DefaultClient "us-east-1")
                (sample_args false) ["github/a"; "github/c"] (Counters 0 0 0 0) tt))
    = inr c' /\
    failures c' = 3.
Proof.
  destruct (X12_failures_of_tags_and_repositories_do_not_end_the_loop failing_push_env)
    with (ecr := DefaultClient "us-east-1") (args := sample_args false)
         (repos := ["github/a"; "github/c"]) (c := Counters 0 0 0 0) (w := tt)
    as (c' & H1 & _).
  - intros argv input w e. simpl.
    destruct argv as [| a [| sub rest]]; simpl; try discriminate.
    destruct (sub =? "push")%string; simpl; [| discriminate].
    intros H. now injection H as <-.
  - intros ecr repo tag w e. simpl. discriminate.
  - intros ecr repo status w e. simpl. unfold sample_images.
    destruct (repo =? "github/a")%string; discriminate.
  - intros ecr repo status w. simpl. unfold sample_images.
    destruct (repo =? "github/a")%string; reflexivity.
  - exists c'. split; [exact H1 |].
    vm_compute in H1. injection H1 as <-. reflexivity.
Defined.

(** ** The order of the work and the failures that are reported *)

Section Schedule.

Context {World : Type} (env : Env World).

Lemma started_refs_app (t1 t2 : list event) :
  started_refs (t1 ++ t2) = started_refs t1 ++ started_refs t2.
Proof. apply flat_map_app. Qed.

Lemma failure_warnings_app (t1 t2 : list event) :
  failure_warnings (t1 ++ t2) = failure_warnings t1 + failure_warnings t2.
Proof. unfold failure_warnings. now rewrite filter_app, length_app. Qed.

Lemma process_tag_trace (ecr : client) (repo tag account_id region : string)
  (dry : bool) (w : World) :
  started_refs (snd (process_tag env ecr repo tag account_id region dry w))
  = [image_uri account_id region repo tag] /\
  failure_warnings (snd (process_tag env ecr repo tag account_id region dry w)) = 0.
Proof.
  unfold process_tag, bind, try_except, log, subprocess_run, delete_image_tag, ret.
  generalize (image_uri account_id region repo tag). intros uri.
  destruct dry; simpl; [now split |].
  repeat match goal with
    | |- context [run_command ?e ?a ?i ?w] =>
        destruct (run_command e a i w) as [[[] | ?] ?]; simpl
    | |- context [batch_delete_image ?e ?c ?r ?t ?w] =>
        destruct (batch_delete_image e c r t w) as [[[] | []] ?]; simpl
    end; now split.
Qed.

Lemma process_tags_trace (ecr : client) (args : Args) (repo : string)
  (tags : list string) (c c' : counters) (w : World) :
  fst (fst (process_tags env ecr args repo tags c w)) = inr c' ->
  started_refs (snd (process_tags env ecr args repo tags c w))
  = map (image_uri (account_id args) (region args) repo) tags /\
  failures c'
  = failures c + failure_warnings (snd (process_tags env ecr args repo tags c w)).
Proof.
  revert c w. induction tags as [| tag rest IH]; intros c w.
  - simpl. intros H. injection H as <-. unfold failure_warnings. simpl. split; [easy | lia].
  - simpl. rewrite bind_run.
    destruct (process_tag_trace ecr repo tag (account_id args) (region args)
                (dry_run args) w) as [Hs Hf].
    destruct (process_tag env ecr repo tag (account_id args) (region args)
                (dry_run args) w) as [[[e | [ok reason]] w1] t1]; simpl in Hs, Hf.
    + discriminate.
    + rewrite bind_run. destruct ok; simpl; intros H; apply IH in H;
        destruct H as [H1 H2]; simpl in H2.
      * rewrite started_refs_app, failure_warnings_app, Hs, Hf, H1. simpl.
        split; [reflexivity | lia].
      * rewrite started_refs_app, failure_warnings_app, Hs, Hf. simpl.
        change (EvLog WARNING (MsgActionFailed repo tag reason) :: ?x)
          with ([EvLog WARNING (MsgActionFailed repo tag reason)] ++ x).
        rewrite failure_warnings_app, H1. unfold failure_warnings at 1. simpl.
        split; [reflexivity | lia].
Qed.

#[local] Arguments process_tags : simpl never.

Lemma ranked_refs_app (args : Args) (t1 t2 : list event) :
  ranked_refs args (t1 ++ t2) = ranked_refs args t1 ++ ranked_refs args t2.
Proof. unfold ranked_refs. now rewrite image_listings_app, flat_map_app. Qed.

Lemma process_repos_trace (ecr : client) (args : Args) (repos : list string)
  (c c' : counters) (w : World) :
  fst (fst (process_repos env ecr args repos c w)) = inr c' ->
  started_refs (snd (process_repos env ecr args repos c w))
  = ranked_refs args (snd (process_repos env ecr args repos c w)) /\
  failures c'
  = failures c + failure_warnings (snd (process_repos env ecr args repos c w)).
Proof.
  revert c w. induction repos as [| repo rest IH]; intros c w.
  { simpl. intros H. injection H as <-. unfold failure_warnings. simpl.
    split; [reflexivity | lia]. }
  simpl. rewrite bind_run, get_last_three_tags_eq.
  destruct (paginate_describe_images env ecr repo "TAGGED" w) as [res w1]. simpl.
  set (errs := match snd res with
               | Some e =>
                   if is_boto_error e then [EvLog ERROR (MsgListTagsFailed repo e)] else []
               | None => []
               end).
  assert (started_refs errs = [] /\ failure_warnings errs = 0 /\
          image_listings errs = []) as (Es & Ef & El).
  { subst errs. destruct (snd res) as [e |]; [| now repeat split].
    destruct (is_boto_error e); now repeat split. }
  destruct (ranking_of res) as [e | [| tag0 tags0]] eqn:Hrank.
  - discriminate.
  - rewrite bind_run. unfold log at 1. simpl. intros H. apply IH in H.
    destruct H as [H1 H2].
    change (EvDescribeImages ecr repo "TAGGED" res :: ?x)
      with ([EvDescribeImages ecr repo "TAGGED" res] ++ x).
    change (EvLog INFO (MsgNoRecentTags repo) :: ?x)
      with ([EvLog INFO (MsgNoRecentTags repo)] ++ x).
    rewrite !started_refs_app, !failure_warnings_app, !ranked_refs_app, Es, Ef.
    unfold ranked_refs in *. rewrite El, H1. simpl. rewrite Hrank. simpl.
    unfold failure_warnings in *. simpl. split; [reflexivity | lia].
  - rewrite bind_run. unfold log at 1. simpl. rewrite bind_run.
    set (c1 := Counters (total_repos c + 1) (total_tags c) (successes c) (failures c)).
    pose proof (fun c2 => process_tags_trace ecr args repo (tag0 :: tags0) c1 c2 w1)
      as Ht.
    pose proof (process_tags_no_listing env ecr args repo (tag0 :: tags0) c1 w1) as Hno.
    destruct (process_tags env ecr args repo (tag0 :: tags0) c1 w1)
      as [[[e | c2] w2] t2].
    + discriminate.
    + destruct (Ht c2 eq_refl) as [T1 T2]. cbn [fst snd] in *.
      intros H. apply IH in H. destruct H as [H1 H2].
      change (EvDescribeImages ecr repo "TAGGED" res :: ?x)
        with ([EvDescribeImages ecr repo "TAGGED" res] ++ x).
      change (EvLog INFO (MsgProcessingRepo repo (tag0 :: tags0)) :: ?x)
        with ([EvLog INFO (MsgProcessingRepo repo (tag0 :: tags0))] ++ x).
      rewrite !started_refs_app, !failure_warnings_app, !ranked_refs_app, Es, Ef, T1.
      unfold ranked_refs in *. rewrite El, Hno, H1. simpl. rewrite Hrank. simpl.
      rewrite ?app_nil_r.
      unfold failure_warnings in *. simpl. subst c1. simpl in T2.
      split; [reflexivity | lia].
Qed.

End Schedule.

Section Reports.

Context {World : Type} (env : Env World).

Lemma summary_lines_counters (args : Args) (c : counters)
  (touched attempted succeeded failed : nat) :
  (In (EvLog INFO (MsgReposTouched touched)) (summary_lines args c) ->
   touched = total_repos c) /\
  (In (EvLog INFO (MsgTagsAttempted attempted succeeded failed)) (summary_lines args c) ->
   attempted = total_tags c /\ succeeded = successes c /\ failed = failures c).
Proof.
  unfold summary_lines. split; intros H; simpl in H.
  - destruct H as [H | [H | [H | H]]]; try discriminate.
    + now injection H as <-.
    + destruct (dry_run args); [destruct H as [H | []]; discriminate | destruct H].
  - destruct H as [H | [H | [H | H]]]; try discriminate.
    + injection H as <- <- <-. now repeat split.
    + destruct (dry_run args); [destruct H as [H | []]; discriminate | destruct H].
Qed.

Lemma started_refs_none (t : list event) :
  Forall (fun ev => starts_worker ev = false) t -> started_refs t = [].
Proof.
  induction 1 as [| ev t Hev _ IH]; [reflexivity |].
  destruct ev as [lvl m | | | |]; simpl; try exact IH.
  destruct m; try discriminate; exact IH.
Qed.

Lemma failure_warnings_none (t : list event) :
  Forall (fun ev => is_failure_warning ev = false) t -> failure_warnings t = 0.
Proof.
  unfold failure_warnings. induction 1 as [| ev t Hev _ IH]; [reflexivity |].
  simpl. now rewrite Hev.
Qed.

(** The parts of a transcript before the loop and after it open no worker
    call, report no failed tag and list no image. *)
Lemma login_transcript_is_quiet (t : list event) :
  Forall (fun ev => login_event ev = true) t ->
  started_refs t = [] /\ failure_warnings t = 0 /\ image_listings t = [] /\
  discovered "" t = [] /\ Forall (fun ev => is_summary_line ev = false) t.
Proof.
  intros F. repeat split.
  - apply started_refs_none. eapply Forall_impl; [| exact F]. intros ev Hev.
    now destruct (login_event_facts ev Hev) as (_ & _ & H & _).
  - apply failure_warnings_none. eapply Forall_impl; [| exact F]. intros ev.
    destruct ev as [[] [] | | | |]; try discriminate; reflexivity.
  - apply image_listings_none. eapply Forall_impl; [| exact F]. intros ev Hev.
    destruct (login_event_facts ev Hev) as (_ & _ & _ & H). now destruct ev.
  - apply discovered_none. eapply Forall_impl; [| exact F]. intros ev Hev.
    destruct (login_event_facts ev Hev) as (_ & _ & _ & H). now destruct ev.
  - eapply Forall_impl; [| exact F]. intros ev Hev.
    now destruct (login_event_facts ev Hev) as (_ & H & _).
Qed.

Lemma discovery_transcript_is_quiet (t : list event) :
  Forall (fun ev => discovery_event ev = true) t ->
  started_refs t = [] /\ failure_warnings t = 0 /\ image_listings t = [] /\
  Forall (fun ev => is_summary_line ev = false) t.
Proof.
  intros F. repeat split.
  - apply started_refs_none. eapply Forall_impl; [| exact F]. intros ev.
    destruct ev as [[] [] | | | |]; try discriminate; reflexivity.
  - apply failure_warnings_none. eapply Forall_impl; [| exact F]. intros ev.
    destruct ev as [[] [] | | | |]; try discriminate; reflexivity.
  - apply image_listings_none. eapply Forall_impl; [| exact F]. intros ev Hev.
    now destruct (discovery_event_facts ev Hev) as (_ & _ & _ & H).
  - eapply Forall_impl; [| exact F]. intros ev Hev.
    now destruct (discovery_event_facts ev Hev) as (_ & H & _).
Qed.

Lemma summary_lines_are_quiet (args : Args) (c : counters) :
  started_refs (summary_lines args c) = [] /\
  failure_warnings (summary_lines args c) = 0 /\
  image_listings (summary_lines args c) = [].
Proof. unfold summary_lines. destruct (dry_run args); now repeat split. Qed.

End Reports.

(** X13.  A run that reaches its summary has started the worker once for
    each ranked tag and for nothing else, in this order: listing by listing
    of images, that is, repository by repository in the order of discovery,
    and within a repository in the order of its ranking. *)
Theorem X13_worker_is_started_once_per_ranked_tag_in_order
  (World : Type) (env : Env World) (args : Args) (w : World) :
  In (EvLog INFO MsgSummary) (snd (main env args w)) ->
  started_refs (snd (main env args w)) = ranked_refs args (snd (main env args w)).
Proof.
  intros Hin.
  destruct (main_summary_inv env args w _ Hin eq_refl)
    as (w0 & t0 & repos & w1 & t1 & c & w2 & t2 & E1 & E2 & Hmain & F0 & F1 & F2 & _).
  rewrite Hmain. simpl.
  destruct (login_transcript_is_quiet t0 F0) as (S0 & _ & L0 & _).
  destruct (discovery_transcript_is_quiet t1 F1) as (S1 & _ & L1 & _).
  destruct (summary_lines_are_quiet args c) as (Ss & _ & Ls).
  pose proof (process_repos_trace env (get_ecr_client (region args) (profile args))
                args repos (Counters 0 0 0 0) c w1) as Ht.
  rewrite E2 in Ht. destruct (Ht eq_refl) as [Ht2 _]. simpl in Ht2.
  rewrite !started_refs_app, !ranked_refs_app, S0, S1, Ss, Ht2.
  unfold ranked_refs. rewrite L0, L1, Ls. reflexivity.
Qed.

(** The live run of the scenario: v3, v1, v2 of github/a and nothing else. *)
Lemma X13_schedule_witness :
  started_refs (snd (main sample_env (sample_args false) tt))
  = ["123456789012.dkr.ecr.us-east-1.amazonaws.com/github/a:v3";
     "123456789012.dkr.ecr.us-east-1.amazonaws.com/github/a:v1";
     "123456789012.dkr.ecr.us-east-1.amazonaws.com/github/a:v2"].
Proof.
  rewrite (X13_worker_is_started_once_per_ranked_tag_in_order unit sample_env
             (sample_args false) tt).
  - reflexivity.
  - vm_compute. repeat (first [left; reflexivity | right]).
Defined.

Lemma rankings_sum_bounds (rs : list (list string)) :
  Forall (fun tags => length tags <= 3) rs ->
  length (filter nonempty rs) <= list_sum (map (@length string) rs) /\
  list_sum (map (@length string) rs) <= 3 * length (filter nonempty rs) /\
  length (filter nonempty rs) <= length rs.
Proof.
  induction 1 as [| tags rs Hlen _ IH]; [simpl; lia |].
  destruct tags as [| t ts]; simpl in *; lia.
Qed.

(** X14.  The numbers of the summary bound each other: every repository
    touched accounts for at least one and at most three of the tags
    attempted, no more repositories are touched than were discovered, and
    neither the successes nor the failures exceed the tags attempted. *)
Theorem X14_summary_counters_bound_each_other
  (World : Type) (env : Env World) (args : Args) (w : World)
  (touched attempted succeeded failed : nat) :
  In (EvLog INFO (MsgReposTouched touched)) (snd (main env args w)) ->
  In (EvLog INFO (MsgTagsAttempted attempted succeeded failed)) (snd (main env args w)) ->
  touched <= attempted /\
  attempted <= 3 * touched /\
  touched <= length (discovered (prefix args) (snd (main env args w))) /\
  succeeded <= attempted /\
  failed <= attempted.
Proof.
  intros Hr Ht.
  destruct (main_summary_inv env args w _ Hr eq_refl)
    as (w0 & t0 & repos & w1 & t1 & c & w2 & t2 & E1 & E2 & Hmain & F0 & F1 & F2 & Hsum).
  rewrite Hmain in Hr, Ht |- *. simpl in Hr, Ht |- *.
  apply Hsum in Hr; [| reflexivity]. apply Hsum in Ht; [| reflexivity].
  apply (proj1 (summary_lines_counters args c touched attempted succeeded failed)) in Hr.
  apply (proj2 (summary_lines_counters args c touched attempted succeeded failed)) in Ht.
  destruct Ht as (-> & -> & ->). subst touched.
  destruct (process_repos_run env (get_ecr_client (region args) (profile args))
              args repos (Counters 0 0 0 0) w1) as [_ Hc].
  rewrite E2 in Hc. specialize (Hc c eq_refl). simpl in Hc.
  destruct Hc as (Hlist & Hrepos & Htags & Hok & Hlen & _).
  destruct (rankings_sum_bounds _ Hlen) as (B1 & B2 & B3).
  assert (length (rankings t2) = length repos) as Hn.
  { unfold rankings. rewrite length_map, <- Hlist. now rewrite length_map. }
  destruct (discovery_discovered env _ _ _ _ _ _ E1) as [Hdisc _].
  assert (length repos
          <= length (discovered (prefix args) (t0 ++ t1 ++ t2 ++ summary_lines args c)))
    as Hd.
  { rewrite !discovered_app, !length_app, Hdisc. lia. }
  lia.
Qed.

(** Every push fails: one repository touched, three tags attempted. *)
Lemma X14_summary_bounds_witness :
  1 <= 3 /\ 3 <= 3 * 1 /\
  1 <= length (discovered "github/" (snd (main failing_push_env (sample_args false) tt))).
Proof.
  assert (In (EvLog INFO (MsgReposTouched 1))
             (snd (main failing_push_env (sample_args false) tt))) as H1.
  { vm_compute. repeat (first [left; reflexivity | right]). }
  assert (In (EvLog INFO (MsgTagsAttempted 3 0 3))
             (snd (main failing_push_env (sample_args false) tt))) as H2.
  { vm_compute. repeat (first [left; reflexivity | right]). }
  destruct (X14_summary_counters_bound_each_other unit failing_push_env
              (sample_args false) tt 1 3 0 3 H1 H2) as (A & B & C & _).
  now repeat split.
Defined.

(** X15.  Every failure that the summary counts was reported when it
    happened: the number of failures in the summary is the number of
    warnings "Action failed" in the log, and the number of successes is the
    number of worker calls without such a warning. *)
Theorem X15_every_counted_failure_has_its_warning
  (World : Type) (env : Env World) (args : Args) (w : World)
  (attempted succeeded failed : nat) :
  In (EvLog INFO (MsgTagsAttempted attempted succeeded failed)) (snd (main env args w)) ->
  failed = failure_warnings (snd (main env args w)) /\
  succeeded + failure_warnings (snd (main env args w))
  = length (started_refs (snd (main env args w))).
Proof.
  intros Ht.
  destruct (main_summary_inv env args w _ Ht eq_refl)
    as (w0 & t0 & repos & w1 & t1 & c & w2 & t2 & E1 & E2 & Hmain & F0 & F1 & F2 & Hsum).
  rewrite Hmain in Ht |- *. simpl in Ht |- *.
  apply Hsum in Ht; [| reflexivity].
  apply (proj2 (summary_lines_counters args c 0 attempted succeeded failed)) in Ht.
  destruct Ht as (-> & -> & ->).
  destruct (login_transcript_is_quiet t0 F0) as (S0 & W0 & L0 & _).
  destruct (discovery_transcript_is_quiet t1 F1) as (S1 & W1 & L1 & _).
  destruct (summary_lines_are_quiet args c) as (Ss & Ws & Ls).
  pose proof (process_repos_trace env (get_ecr_client (region args) (profile args))
                args repos (Counters 0 0 0 0) c w1) as Htr.
  pose proof (process_repos_starts env (get_ecr_client (region args) (profile args))
                args repos (Counters 0 0 0 0) c w1) as Hst.
  destruct (process_repos_run env (get_ecr_client (region args) (profile args))
              args repos (Counters 0 0 0 0) w1) as [_ Hc].
  rewrite E2 in Htr, Hst, Hc. destruct (Htr eq_refl) as [T1 T2].
  specialize (Hst eq_refl). specialize (Hc c eq_refl). simpl in T1, T2, Hst, Hc.
  destruct Hc as (_ & _ & Htags & Hok & _).
  rewrite !failure_warnings_app, !started_refs_app, W0, W1, Ws, S0, S1, Ss.
  simpl. rewrite app_nil_r.
  assert (length (started_refs t2) = tags_attempted t2) as Hlen.
  { clear. unfold tags_attempted. induction t2 as [| ev t IH]; [reflexivity |].
    destruct ev as [lvl m | | | |]; simpl; try exact IH.
    destruct m; simpl; try exact IH; now rewrite IH. }
  rewrite Hlen. lia.
Qed.

(** Every push fails: three failures counted, three warnings written. *)
Lemma X15_failure_warnings_witness :
  3 = failure_warnings (snd (main failing_push_env (sample_args false) tt)).
Proof.
  assert (In (EvLog INFO (MsgTagsAttempted 3 0 3))
             (snd (main failing_push_env (sample_args false) tt))) as H2.
  { vm_compute. repeat (first [left; reflexivity | right]). }
  exact (proj1 (X15_every_counted_failure_has_its_warning unit failing_push_env
                  (sample_args false) tt 3 0 3 H2)).
Defined.

(** X16.  The summary ends the run and is written once: when the line
    "=== SUMMARY ===" occurs, [main] has returned, the transcript is some
    events without any summary line followed by the summary lines of one
    set of counters, so that no external call or log line of the loop comes
    after them; and the notice of the dry-run mode is among them exactly in
    dry-run mode. *)
Theorem X16_summary_comes_last_and_once
  (World : Type) (env : Env World) (args : Args) (w : World) :
  In (EvLog INFO MsgSummary) (snd (main env args w)) ->
  fst (fst (main env args w)) = inr tt /\
  (exists before c,
      snd (main env args w) = before ++ summary_lines args c /\
      Forall (fun ev => is_summary_line ev = false) before) /\
  (In (EvLog INFO MsgModeDryRun) (snd (main env args w)) <-> dry_run args = true).
Proof.
  intros Hin.
  destruct (main_summary_inv env args w _ Hin eq_refl)
    as (w0 & t0 & repos & w1 & t1 & c & w2 & t2 & E1 & E2 & Hmain & F0 & F1 & F2 & Hsum).
  rewrite Hmain. simpl.
  split; [reflexivity |]. split.
  - exists (t0 ++ t1 ++ t2), c. split; [now rewrite <- !app_assoc |].
    apply Forall_app. split; [apply (login_transcript_is_quiet t0 F0) |].
    apply Forall_app. split; [apply (discovery_transcript_is_quiet t1 F1) |].
    eapply Forall_impl; [| exact F2]. intros ev Hev.
    now destruct (loop_event_facts _ ev Hev) as (H & _).
  - split.
    + intros H. apply Hsum in H; [| reflexivity]. unfold summary_lines in H.
      destruct (dry_run args); [reflexivity |].
      simpl in H. destruct H as [H | [H | [H | []]]]; discriminate.
    + intros Hdry. apply in_or_app. right. apply in_or_app. right.
      apply in_or_app. right. unfold summary_lines. rewrite Hdry.
      simpl. do 3 right. now left.
Qed.

(** The dry run of the scenario ends with its four summary lines. *)
Lemma X16_summary_witness :
  fst (fst (main sample_env (sample_args true) tt)) = inr tt /\
  In (EvLog INFO MsgModeDryRun) (snd (main sample_env (sample_args true) tt)).
Proof.
  assert (In (EvLog INFO MsgSummary) (snd (main sample_env (sample_args true) tt)))
    as Hin.
  { vm_compute. repeat (first [left; reflexivity | right]). }
  destruct (X16_summary_comes_last_and_once unit sample_env (sample_args true) tt Hin)
    as (H1 & _ & H3).
  split; [exact H1 | now apply H3].
Defined.

(** ** Ranking against the registry *)

(** X17.  [get_last_three_tags] makes one external call, the listing of the
    tagged images of the repository, whatever the answer.  It never lets
    an exception of the SDK through: such an exception gives the empty list
    and one error line, and what can leave the function is an exception
    of another class only. *)
Theorem X17_ranking_lists_once_and_lets_no_sdk_error_through
  (World : Type) (env : Env World) (ecr : client) (repo : string) (w : World) :
  external_calls (snd (get_last_three_tags env ecr repo w))
  = [EvDescribeImages ecr repo "TAGGED"
       (fst (paginate_describe_images env ecr repo "TAGGED" w))] /\
  snd (fst (get_last_three_tags env ecr repo w))
  = snd (paginate_describe_images env ecr repo "TAGGED" w) /\
  (forall e, fst (fst (get_last_three_tags env ecr repo w)) = inl e ->
             is_boto_error e = false) /\
  (forall e, snd (fst (paginate_describe_images env ecr repo "TAGGED" w)) = Some e ->
             is_boto_error e = true ->
             fst (fst (get_last_three_tags env ecr repo w)) = inr [] /\
             In (EvLog ERROR (MsgListTagsFailed repo e))
                (snd (get_last_three_tags env ecr repo w))).
Proof.
  rewrite get_last_three_tags_eq. simpl.
  destruct (paginate_describe_images env ecr repo "TAGGED" w) as [[pages failure] w1].
  simpl. unfold ranking_of. simpl. repeat split.
  - destruct failure as [e |]; [| reflexivity]. now destruct (is_boto_error e).
  - intros e. destruct failure as [e' |].
    + destruct (is_boto_error e') eqn:E; [discriminate |].
      intros H. now injection H as <-.
    + intros H. now rewrite (rank_images_raises _ _ H).
  - subst failure. now rewrite H0.
  - subst failure. rewrite H0. right. now left.
Qed.

(** The listing of images is refused. *)
Lemma X17_ranking_witness :
  fst (fst (get_last_three_tags no_images_env (DefaultClient "us-east-1") "github/a" tt))
  = inr [] /\
  In (EvLog ERROR (MsgListTagsFailed "github/a" ClientError))
     (snd (get_last_three_tags no_images_env (DefaultClient "us-east-1") "github/a" tt)).
Proof.
  exact (proj2 (proj2 (proj2 (X17_ranking_lists_once_and_lets_no_sdk_error_through unit
                                no_images_env (DefaultClient "us-east-1") "github/a" tt)))
           ClientError eq_refl eq_refl).
Defined.




